(** * TokenBlockDataset: block boundaries, prefetch cache and shifted views

    A shallow embedding of [fairseq/data/token_block_dataset.py].  Python
    integers are unbounded and are modelled by [Z]; lists and numpy arrays
    by [list]; the dictionary [cache_index] by a [gmap]; exceptions by a
    result type; the mutable object [self] by explicit state passing. *)

From Stdlib Require Import ZArith List String Lia Bool.
From stdpp Require Import base option list gmap sorting.

Local Open Scope Z_scope.

(** ** Exceptions *)

Inductive exn : Type :=
| KeyError            (* dictionary lookup of a missing key *)
| IndexError          (* list index out of range *)
| ValueError          (* invalid break_mode, negative array dimension *)
| ZeroDivisionError   (* division by zero *)
| OverflowError       (* int / int too large for a float *)
| AttributeError      (* self.cache read before any prefetch *)
| OutOfRange          (* raised by the token stream's read_into *)
| OutOfFuel.          (* artefact of the model of the while loop *)

Inductive result (A : Type) : Type :=
| Ok (a : A)
| Raise (e : exn).
Arguments Ok {A} a.
Arguments Raise {A} e.

Definition result_bind {A B} (r : result A) (k : A -> result B) : result B :=
  match r with
  | Ok a => k a
  | Raise e => Raise e
  end.

#[global] Instance result_ret : MRet result := @Ok.
#[global] Instance result_mbind : MBind result :=
  fun A B k r => result_bind r k.

(** ** Python primitives *)

Module Py.

(** [sum(xs)] *)
Definition sum (xs : list Z) : Z := fold_left Z.add xs 0.

(** [range(n)]: empty when [n <= 0]. *)
Definition range (n : Z) : list Z := map Z.of_nat (seq 0 (Z.to_nat n)).

(** [l[i]] on a list: negative indices count from the end. *)
Definition getitem {A} (l : list A) (i : Z) : result A :=
  let n := Z.of_nat (length l) in
  let j := if i <? 0 then i + n else i in
  if (0 <=? j) && (j <? n)
  then match l !! Z.to_nat j with
       | Some x => Ok x
       | None => Raise IndexError
       end
  else Raise IndexError.

(** Normalisation of one bound of a slice [a:b] over [n] elements:
    a negative bound counts from the end, then the bound is clamped
    to [0, n]. *)
Definition slice_bound (n : nat) (x : Z) : nat :=
  let x1 := if x <? 0 then x + Z.of_nat n else x in
  Z.to_nat (Z.max 0 (Z.min (Z.of_nat n) x1)).

(** [l[a:b]] *)
Definition slice {A} (l : list A) (a b : Z) : list A :=
  let a' := slice_bound (length l) a in
  let b' := slice_bound (length l) b in
  take (b' - a')%nat (drop a' l).

(** ** [int / int] and [math.ceil]

    True division of two integers yields the binary64 number nearest to
    the exact quotient (ties to even), [OverflowError] when that number
    is out of range, and [ZeroDivisionError] for a zero divisor.  A
    binary64 number is kept as [mant * 2 ^ expo]. *)

Record float : Type := Float { mant : Z; expo : Z }.

(** nearest integer to [n / d], ties to even ([0 <= n], [0 < d]) *)
Definition round_half_even (n d : Z) : Z :=
  let q := n / d in
  let r := n mod d in
  if 2 * r <? d then q
  else if d <? 2 * r then q + 1
  else if Z.even q then q else q + 1.

(** [floor (log2 (a / b))] for [0 < a], [0 < b] *)
Definition quot_log2 (a b : Z) : Z :=
  let d := Z.log2 a - Z.log2 b in
  let le := if 0 <=? d then b * 2 ^ d <=? a else b <=? a * 2 ^ (- d) in
  if le then d else d - 1.

Definition true_div (a b : Z) : result float :=
  if b =? 0 then Raise ZeroDivisionError
  else if a =? 0 then Ok (Float 0 0)
  else
    let a' := Z.abs a in
    let b' := Z.abs b in
    let e := Z.max (quot_log2 a' b' - 52) (-1074) in
    let m := if 0 <=? e then round_half_even a' (b' * 2 ^ e)
             else round_half_even (a' * 2 ^ (- e)) b' in
    if (0 <=? e) && (2 ^ 1024 <=? m * 2 ^ e) then Raise OverflowError
    else Ok (Float (Z.sgn a * Z.sgn b * m) e).

(** [math.ceil(x)] *)
Definition ceil (x : float) : Z :=
  if 0 <=? expo x then mant x * 2 ^ expo x
  else - ((- mant x) / 2 ^ (- expo x)).

End Py.

(** ** BlockIndexer: the three break modes of [__init__] *)

Abbreviation block := (Z * Z)%type.

(** *** break_mode [None] / ['none'] *)

Definition block_at (block_size total_size i : Z) : block :=
  let start := i * block_size in
  let end_ := Z.min (start + block_size) total_size in
  (start, end_).

(** The sizes are Python integers: [sum(sizes) / block_size] is the division
    of two [int]s, which raises [ZeroDivisionError] at block size 0.  Sizes
    held in a numpy integer array divide to [inf] or [nan] there and
    [math.ceil] raises instead; that case is outside this definition. *)
Definition none_blocks (sizes : list Z) (block_size : Z) : result (list block) :=
  let total_size := Py.sum sizes in
  q ← Py.true_div total_size block_size;
  let length := Py.ceil q in
  mret (map (block_at block_size total_size) (Py.range length)).

(** *** break_mode ['complete'] *)

Record loop_state : Type := LoopState {
  tok_idx : Z;
  sz_idx : nat;
  curr_size : Z;
  emitted : list block
}.

Section Complete.
Variable sizes : list Z.
Variable block_size : Z.

(** [sz_idx < len(sizes)] *)
Definition complete_guard (st : loop_state) : bool :=
  (sz_idx st <? length sizes)%nat.

(** one iteration of the body of the [while] *)
Definition complete_body (st : loop_state) : loop_state :=
  let sz := nth (sz_idx st) sizes 0 in
  if (curr_size st + sz <=? block_size) || (curr_size st =? 0)
  then {| tok_idx := tok_idx st;
          sz_idx := S (sz_idx st);
          curr_size := curr_size st + sz;
          emitted := emitted st |}
  else {| tok_idx := tok_idx st + curr_size st;
          sz_idx := sz_idx st;
          curr_size := 0;
          emitted := emitted st ++ [(tok_idx st, tok_idx st + curr_size st)] |}.

(** the [while] loop; the result carries the number of iterations run,
    [None] when the fuel does not suffice *)
Fixpoint complete_while (fuel : nat) (st : loop_state) : option (nat * loop_state) :=
  if complete_guard st
  then match fuel with
       | O => None
       | S fuel' =>
           match complete_while fuel' (complete_body st) with
           | Some (n, st') => Some (S n, st')
           | None => None
           end
       end
  else Some (O, st).

Definition complete_init : loop_state :=
  {| tok_idx := 0; sz_idx := 0; curr_size := 0; emitted := [] |}.

(** [if curr_size > 0: self.slice_indices.append(...)] *)
Definition complete_flush (st : loop_state) : list block :=
  if 0 <? curr_size st
  then emitted st ++ [(tok_idx st, tok_idx st + curr_size st)]
  else emitted st.

Definition complete_blocks : result (list block) :=
  match complete_while (2 * length sizes) complete_init with
  | Some (_, st) => Ok (complete_flush st)
  | None => Raise OutOfFuel
  end.
End Complete.

(** *** break_mode ['eos'] *)

Definition eos_body (acc : Z * list block) (sz : Z) : Z * list block :=
  let '(curr, out) := acc in
  (curr + sz, if 0 <? sz then out ++ [(curr, curr + sz)] else out).

Definition eos_blocks (sizes : list Z) : list block :=
  snd (fold_left eos_body sizes (0, [])).


(** ** The token stream (external collaborator) *)

(** The tokens are the values the cells of the cache buffer hold: token ids,
    which fit the 32 bits of [np.int32]. *)
Record TokenStream : Type := {
  ds_sizes : list Z;     (* ds.sizes: one size per unit *)
  ds_tokens : list Z     (* the flat stream the sizes describe *)
}.

(** Modelled from the spec: [read_into] belongs to the dataset class that is
    handed to the constructor.  [read_into(start, destination)] copies the
    tokens [start, start + L) into a destination of length [L] and fails
    loudly when that range is out of bounds. *)
Definition read_into (ds : TokenStream) (start : Z) (L : nat) : result (list Z) :=
  if (0 <=? start) && (start + Z.of_nat L <=? Z.of_nat (length (ds_tokens ds)))
  then Ok (take L (drop (Z.to_nat start) (ds_tokens ds)))
  else Raise OutOfRange.

(** ** The dataset object *)

Record TokenBlockDataset : Type := {
  dataset : TokenStream;
  pad : Z;
  eos : Z;
  include_targets : bool;
  slice_indices : list block;
  sizes : list Z;                      (* self.sizes: per-block lengths *)
  cache : option (list Z);             (* unset until the first prefetch *)
  cache_index : gmap Z (Z * Z)
}.

Definition set_cache (buf : list Z) (self : TokenBlockDataset) : TokenBlockDataset :=
  {| dataset := dataset self; pad := pad self; eos := eos self;
     include_targets := include_targets self;
     slice_indices := slice_indices self; sizes := sizes self;
     cache := Some buf; cache_index := cache_index self |}.

Definition set_cache_index (idx : Z) (r : Z * Z) (self : TokenBlockDataset)
  : TokenBlockDataset :=
  {| dataset := dataset self; pad := pad self; eos := eos self;
     include_targets := include_targets self;
     slice_indices := slice_indices self; sizes := sizes self;
     cache := cache self; cache_index := <[idx := r]> (cache_index self) |}.

(** *** [__init__] *)

Definition build_blocks (szs : list Z) (block_size : Z) (break_mode : option string)
  : result (list block) :=
  match break_mode with
  | None => none_blocks szs block_size
  | Some mode =>
      if String.eqb mode "none" then none_blocks szs block_size
      else if String.eqb mode "complete" then complete_blocks szs block_size
      else if String.eqb mode "eos" then Ok (eos_blocks szs)
      else Raise ValueError
  end.

Definition init (ds : TokenStream) (block_size pad_ eos_ : Z)
    (break_mode : option string) (include_targets_ : bool)
  : result TokenBlockDataset :=
  bl ← build_blocks (ds_sizes ds) block_size break_mode;
  mret {| dataset := ds; pad := pad_; eos := eos_;
          include_targets := include_targets_;
          slice_indices := bl;
          sizes := map (fun '(s, e) => e - s) bl;
          cache := None;
          cache_index := ∅ |}.

(** [__len__] *)
Definition len (self : TokenBlockDataset) : nat := length (slice_indices self).

(** *** [__getitem__] *)

Inductive sample : Type :=
| Item (item : list Z)
| Triple (source item past_target : list Z).

Definition target (x : sample) : list Z :=
  match x with
  | Item item => item
  | Triple _ item _ => item
  end.

(** The three views are returned as 64-bit integer tensors.  The tokens come
    from the buffer and fit; [pad] and [eos] are copied as they are, which is
    what the code does for values in the range of 64-bit integers.  Values
    outside that range are outside this definition. *)
Definition getitem (self : TokenBlockDataset) (index : Z) : result sample :=
  '(s, e) ← match cache_index self !! index with
            | Some r => Ok r
            | None => Raise KeyError
            end;
  buf ← match cache self with
        | Some buf => Ok buf
        | None => Raise AttributeError
        end;
  let item := Py.slice buf s e in
  if include_targets self then
    if s =? 0 then
      let source := [eos self] ++ Py.slice buf 0 (e - 1) in
      let past_target := [pad self; eos self] ++ Py.slice buf 0 (e - 2) in
      mret (Triple source item past_target)
    else
      let source := Py.slice buf (s - 1) (e - 1) in
      let past_target :=
        if s =? 1 then [eos self] ++ Py.slice buf 0 (e - 2)
        else Py.slice buf (s - 2) (e - 2) in
      mret (Triple source item past_target)
  else mret (Item item).

(** *** [prefetch]

    [prefetch] mutates [self] and may raise half-way: a computation takes
    the object and returns the outcome together with the object as the
    call left it.  [indices.sort()] sorts the integers in ascending order
    (in the caller's list, which the model leaves alone). *)

Definition M (A : Type) : Type := TokenBlockDataset -> result A * TokenBlockDataset.

Definition m_ret {A} (a : A) : M A := fun self => (Ok a, self).
Definition m_bind {A B} (m : M A) (k : A -> M B) : M B :=
  fun self =>
    match m self with
    | (Ok a, self') => k a self'
    | (Raise e, self') => (Raise e, self')
    end.
Definition m_lift {A} (r : result A) : M A := fun self => (r, self).
Definition m_self : M TokenBlockDataset := fun self => (Ok self, self).
Definition m_update (f : TokenBlockDataset -> TokenBlockDataset) : M unit :=
  fun self => (Ok tt, f self).

#[global] Instance M_ret : MRet M := @m_ret.
#[global] Instance M_mbind : MBind M := fun A B k m => m_bind m k.

(** [np.empty(n, dtype=np.int32)]: [n] cells of uninitialised memory, whose
    contents [junk] supplies; a negative dimension is refused. *)
Definition np_empty (junk : nat -> Z) (n : Z) : result (list Z) :=
  if n <? 0 then Raise ValueError
  else Ok (map junk (seq 0 (Z.to_nat n))).

(** [self.cache[a:b]] as the destination of [read_into]: the cells the view
    covers are overwritten by [data]. *)
Definition write_at (buf : list Z) (a : nat) (data : list Z) : list Z :=
  take a buf ++ data ++ drop (a + length data) buf.

Section Prefetch.
Variable junk : nat -> Z.

(** first loop: [total_size += e - s] *)
Fixpoint prefetch_total (indices : list Z) (total_size : Z) : M Z :=
  match indices with
  | [] => mret total_size
  | idx :: rest =>
      self ← m_self;
      '(s, e) ← m_lift (Py.getitem (slice_indices self) idx);
      prefetch_total rest (total_size + (e - s))
  end.

(** second loop: read each block into the next free region *)
Fixpoint prefetch_fill (indices : list Z) (start : Z) : M unit :=
  match indices with
  | [] => mret tt
  | idx :: rest =>
      self ← m_self;
      '(s, e) ← m_lift (Py.getitem (slice_indices self) idx);
      buf ← m_lift (match cache self with
                    | Some buf => Ok buf
                    | None => Raise AttributeError
                    end);
      let a := Py.slice_bound (length buf) start in
      let b := Py.slice_bound (length buf) (start + e - s) in
      data ← m_lift (read_into (dataset self) s (b - a));
      m_update (set_cache (write_at buf a data));;
      m_update (set_cache_index idx (start, start + e - s));;
      prefetch_fill rest (start + (e - s))
  end.

Definition prefetch (indices : list Z) : M unit :=
  let indices := merge_sort Z.le indices in
  total_size ← prefetch_total indices 0;
  buf ← m_lift (np_empty junk total_size);
  m_update (set_cache buf);;
  prefetch_fill indices 0.
End Prefetch.

(** [supports_prefetch] *)
Definition supports_prefetch (self : TokenBlockDataset) : bool := true.

(** * Vocabulary of the statements *)

(** ** Positions in the stream *)

(** [prefix xs j]: the stream position at which unit [j] starts. *)
Definition prefix (xs : list Z) (j : nat) : Z := Py.sum (take j xs).

(** The values a 64-bit integer tensor holds. *)
Definition int64 (x : Z) : Prop := - 2 ^ 63 <= x < 2 ^ 63.

(** The exact ceiling of a quotient of integers. *)
Definition ceil_div (a b : Z) : Z := (a + b - 1) / b.

Definition nonzero (x : Z) : Prop := x <> 0.
#[global] Instance nonzero_dec (x : Z) : Decision (nonzero x).
Proof. unfold nonzero. apply _. Defined.

(** ** Block tables *)

(** [tiles a bl b]: the blocks of [bl] are non-empty, start at [a], each
    starts where its predecessor ends, and the last one ends at [b]. *)
Fixpoint tiles (a : Z) (bl : list block) (b : Z) : Prop :=
  match bl with
  | [] => a = b
  | (s, e) :: bl' => s = a /\ s < e /\ tiles e bl' b
  end.

(** [chain a bl]: the blocks of [bl] are non-empty, none starts before [a]
    or before the end of its predecessor. *)
Fixpoint chain (a : Z) (bl : list block) : Prop :=
  match bl with
  | [] => True
  | (s, e) :: bl' => a <= s /\ s < e /\ chain e bl'
  end.

(** Blocks are strictly ordered by start and do not overlap. *)
Definition ordered (bl : list block) : Prop :=
  forall i j s e s' e',
    (i < j)%nat -> bl !! i = Some (s, e) -> bl !! j = Some (s', e') ->
    s < s' /\ e <= s'.

(** Every block lies inside the token stream. *)
Definition wf_blocks (ds : TokenStream) (bl : list block) : Prop :=
  Forall (fun '(s, e) => 0 <= s <= e /\ e <= Z.of_nat (length (ds_tokens ds))) bl.



(** Unit [j] lies inside block [b]. *)
Definition unit_in_block (szs : list Z) (j : nat) (b : block) : Prop :=
  fst b <= prefix szs j /\ prefix szs (S j) <= snd b.

(** Every unit, whatever its size, lies inside exactly one block. *)
Definition every_unit_in_one_block (szs : list Z) (bl : list block) : Prop :=
  forall j, (j < length szs)%nat ->
    exists i b,
      bl !! i = Some b /\ unit_in_block szs j b /\
      forall i' b', bl !! i' = Some b' -> unit_in_block szs j b' -> i' = i.

(** The break modes the constructor accepts. *)
Definition supported (break_mode : option string) : Prop :=
  break_mode = None \/ break_mode = Some "none"%string \/
  break_mode = Some "complete"%string \/ break_mode = Some "eos"%string.

(** ** The loop of break_mode ['complete'] *)

Section CompleteVocabulary.
Variable szs : list Z.
Variable block_size : Z.

(** The loop variant: two per unit still to read, plus one when a block is
    being accumulated. *)
Definition complete_measure (st : loop_state) : nat :=
  (2 * (length szs - sz_idx st) + (if (curr_size st =? 0)%Z then 0 else 1))%nat.

(** The test of the [if] in the body of the loop. *)
Definition complete_fits (st : loop_state) : bool :=
  (curr_size st + nth (sz_idx st) szs 0 <=? block_size) || (curr_size st =? 0).

(** The loop invariant: the cursor and the accumulator add up to the start of
    the unit to read; the blocks emitted so far tile the stream up to the
    cursor and end at unit boundaries; a block or an accumulator beyond
    [block_size] is a single unit. *)
Record complete_inv (st : loop_state) : Prop := {
  inv_idx : (sz_idx st <= length szs)%nat;
  inv_curr : 0 <= curr_size st;
  inv_pos : tok_idx st + curr_size st = prefix szs (sz_idx st);
  inv_tiles : tiles 0 (emitted st) (tok_idx st);
  inv_ends : forall s e, (s, e) ∈ emitted st ->
               exists j, (j <= length szs)%nat /\ e = prefix szs j;
  inv_big : forall s e, (s, e) ∈ emitted st -> block_size < e - s ->
              exists j, szs !! j = Some (e - s) /\ prefix szs j = s;
  inv_acc : block_size < curr_size st ->
              exists j, sz_idx st = S j /\ szs !! j = Some (curr_size st) /\
                        prefix szs j = tok_idx st
}.
End CompleteVocabulary.

(** Every block of [bl] was closed by a unit that did not fit: the unit that
    starts where the block ends, added to the block, exceeds [block_size]. *)
Definition closed_by_overflow (szs : list Z) (block_size : Z) (bl : list block)
  : Prop :=
  forall s e, (s, e) ∈ bl ->
    exists j sz, szs !! j = Some sz /\ prefix szs j = e /\ block_size < e - s + sz.

(** ** The loop of break_mode ['eos'] *)

(** The blocks the loop appends when it starts with the cursor at [c]. *)
Fixpoint eos_from (c : Z) (szs : list Z) : list block :=
  match szs with
  | [] => []
  | sz :: rest =>
      if 0 <? sz then (c, c + sz) :: eos_from (c + sz) rest
      else eos_from (c + sz) rest
  end.

(** ** The cache *)

(** [prefetch] touches the buffer and the index only. *)
Definition same_config (self self' : TokenBlockDataset) : Prop :=
  dataset self' = dataset self /\ pad self' = pad self /\ eos self' = eos self /\
  include_targets self' = include_targets self /\
  slice_indices self' = slice_indices self /\ sizes self' = sizes self.

(** The length of block [idx], as both loops of [prefetch] compute it. *)
Definition block_len (bl : list block) (idx : Z) : Z :=
  match Py.getitem bl idx with
  | Ok (s, e) => e - s
  | Raise _ => 0
  end.

(** The ids [self.slice_indices[idx]] accepts. *)
Definition valid_ids (bl : list block) (indices : list Z) : Prop :=
  Forall (fun idx => exists r, Py.getitem bl idx = Ok r) indices.

(** The index after the second loop of [prefetch] has gone through [ids]. *)
Fixpoint fill_index (bl : list block) (ids : list Z) (start : Z)
    (index : gmap Z (Z * Z)) : gmap Z (Z * Z) :=
  match ids with
  | [] => index
  | idx :: rest =>
      match Py.getitem bl idx with
      | Ok (s, e) =>
          fill_index bl rest (start + (e - s)) (<[idx := (start, start + e - s)]> index)
      | Raise _ => index
      end
  end.

(** The tokens of block [idx] in the stream. *)
Definition block_tokens (ds : TokenStream) (bl : list block) (idx : Z) : list Z :=
  match Py.getitem bl idx with
  | Ok (s, e) => Py.slice (ds_tokens ds) s e
  | Raise _ => []
  end.

(** The objects a program can hold: the one the constructor returned, and
    those any sequence of calls of [prefetch] makes of it, whether the calls
    return or raise. *)
Inductive reachable (self0 : TokenBlockDataset) : TokenBlockDataset -> Prop :=
| reach_init : reachable self0 self0
| reach_prefetch (junk : nat -> Z) (ids : list Z) (self self' : TokenBlockDataset)
    (r : result unit) :
    reachable self0 self -> prefetch junk ids self = (r, self') ->
    reachable self0 self'.

(** The ids [a], [a + 1], ..., [a + n - 1]. *)
Definition id_range (a n : nat) : list Z := map Z.of_nat (seq a n).

(** The position at which block [j] starts: the end of the stream [N] for
    [j] beyond the table. *)
Definition block_start (bl : list block) (N : Z) (j : nat) : Z :=
  match bl !! j with
  | Some (s, _) => s
  | None => N
  end.

(** A buffer that holds one copy per distinct requested id. *)
Definition sized_for_distinct (bl : list block) (ids : list Z)
    (self : TokenBlockDataset) : Prop :=
  exists buf, cache self = Some buf /\
    Z.of_nat (length buf) = Py.sum (map (block_len bl) (remove_dups ids)).


(** ** Streams and uninitialised memory of the concrete runs *)

Definition demo_stream : TokenStream :=
  {| ds_sizes := [2; 2]; ds_tokens := [10; 11; 12; 13] |}.


Definition word_stream : TokenStream :=
  {| ds_sizes := [1; 1; 1]; ds_tokens := [10; 11; 12] |}.

Definition zeros (_ : nat) : Z := 0.

(** Side conditions of the concrete runs. *)
Ltac solve_wf :=
  unfold wf_blocks; repeat (apply Forall_cons; split; [simpl; lia|]); constructor.
Ltac solve_valid :=
  unfold valid_ids; repeat (apply Forall_cons; split; [eexists; reflexivity|]);
  constructor.

(** * Properties *)

(** ** Sums and prefix sums *)

Lemma sum_fold_left (xs : list Z) (a : Z) :
  fold_left Z.add xs a = a + Py.sum xs.
Proof.
  unfold Py.sum. revert a.
  induction xs as [|x xs IH]; intros a; simpl; [lia|].
  rewrite (IH (a + x)), (IH (0 + x)). lia.
Qed.

Lemma sum_nil : Py.sum [] = 0.
Proof. reflexivity. Qed.

Lemma sum_cons (x : Z) (xs : list Z) : Py.sum (x :: xs) = x + Py.sum xs.
Proof. unfold Py.sum at 1. simpl. apply sum_fold_left. Qed.

Lemma sum_app (xs ys : list Z) : Py.sum (xs ++ ys) = Py.sum xs + Py.sum ys.
Proof.
  induction xs as [|x xs IH]; simpl; [rewrite sum_nil; lia|].
  rewrite !sum_cons, IH. lia.
Qed.

Lemma sum_nonneg (xs : list Z) : Forall (fun x => 0 <= x) xs -> 0 <= Py.sum xs.
Proof.
  induction 1 as [|x xs Hx _ IH]; [rewrite sum_nil; lia|].
  rewrite sum_cons. lia.
Qed.

Lemma prefix_0 (xs : list Z) : prefix xs 0 = 0.
Proof. reflexivity. Qed.

Lemma prefix_S (xs : list Z) (j : nat) (x : Z) :
  xs !! j = Some x -> prefix xs (S j) = prefix xs j + x.
Proof.
  intros H. unfold prefix. rewrite (take_S_r _ _ _ H), sum_app, sum_cons, sum_nil. lia.
Qed.

Lemma prefix_all (xs : list Z) (j : nat) :
  (length xs <= j)%nat -> prefix xs j = Py.sum xs.
Proof. intros H. unfold prefix. by rewrite take_ge. Qed.

Lemma prefix_mono (xs : list Z) (i j : nat) :
  Forall (fun x => 0 <= x) xs -> (i <= j)%nat -> prefix xs i <= prefix xs j.
Proof.
  intros Hpos Hij. unfold prefix.
  replace j with (i + (j - i))%nat by lia.
  rewrite <- take_take_drop, sum_app.
  assert (0 <= Py.sum (take (j - i) (drop i xs))); [|lia].
  apply sum_nonneg. apply Forall_take, Forall_drop, Hpos.
Qed.

(** ** Tilings *)

Lemma tiles_app (a m b : Z) (l1 l2 : list block) :
  tiles a l1 m -> tiles m l2 b -> tiles a (l1 ++ l2) b.
Proof.
  revert a. induction l1 as [|[s e] l1 IH]; intros a; simpl.
  - intros ->. auto.
  - intros (-> & Hlt & Ht) H2. auto.
Qed.

Lemma tiles_snoc (a s e : Z) (l : list block) :
  tiles a l s -> s < e -> tiles a (l ++ [(s, e)]) e.
Proof. intros H Hlt. apply (tiles_app a s); simpl; auto. Qed.

Lemma tiles_le (a b : Z) (bl : list block) : tiles a bl b -> a <= b.
Proof.
  revert a. induction bl as [|[s e] bl IH]; intros a; simpl.
  - lia.
  - intros (-> & Hlt & Ht). apply IH in Ht. lia.
Qed.

Lemma tiles_lookup (a b : Z) (bl : list block) (i : nat) (s e : Z) :
  tiles a bl b -> bl !! i = Some (s, e) ->
  a <= s /\ s < e /\ e <= b /\ tiles a (take i bl) s /\ tiles e (drop (S i) bl) b.
Proof.
  revert a i. induction bl as [|[s0 e0] bl IH]; intros a i Ht Hi; [done|].
  destruct Ht as (-> & Hlt & Ht).
  destruct i as [|i]; simpl in Hi.
  - injection Hi as -> ->. pose proof (tiles_le _ _ _ Ht). simpl. rewrite drop_0. auto with lia.
  - destruct (IH _ _ Ht Hi) as (H1 & H2 & H3 & H4 & H5). simpl. repeat split; auto; lia.
Qed.

(** Blocks of a tiling are ordered and pairwise disjoint. *)
Lemma tiles_ordered (a b : Z) (bl : list block) (i j : nat) (s e s' e' : Z) :
  tiles a bl b -> bl !! i = Some (s, e) -> bl !! j = Some (s', e') ->
  (i < j)%nat -> e <= s'.
Proof.
  intros Ht Hi Hj Hij.
  destruct (tiles_lookup _ _ _ _ _ _ Ht Hi) as (_ & _ & _ & _ & Hd).
  assert (drop (S i) bl !! (j - S i)%nat = Some (s', e')) as Hj'.
  { rewrite lookup_drop. replace (S i + (j - S i))%nat with j by lia. done. }
  destruct (tiles_lookup _ _ _ _ _ _ Hd Hj'). lia.
Qed.

(** Every position of the tiled range lies in some block. *)
Lemma tiles_cover (a b p : Z) (bl : list block) :
  tiles a bl b -> a <= p < b ->
  exists i s e, bl !! i = Some (s, e) /\ s <= p < e.
Proof.
  revert a. induction bl as [|[s e] bl IH]; intros a; simpl.
  - lia.
  - intros (-> & Hlt & Ht) Hp.
    destruct (decide (p < e)) as [Hpe|Hpe].
    + exists 0%nat, a, e. split; [done|lia].
    + destruct (IH e Ht) as (i & s' & e' & Hi & Hr); [lia|].
      exists (S i), s', e'. auto.
Qed.

Lemma tiles_last (a b : Z) (bl : list block) :
  tiles a bl b -> a < b -> exists s, last bl = Some (s, b).
Proof.
  revert a. induction bl as [|[s e] bl IH]; intros a; simpl.
  - lia.
  - intros (-> & Hlt & Ht) Hab. destruct bl as [|x bl].
    + simpl in Ht. subst. eauto.
    + apply (IH e Ht). destruct x as [s' e']. simpl in Ht.
      destruct Ht as (-> & Hlt' & Ht). apply tiles_le in Ht. lia.
Qed.

(** ** The accumulation loop of break_mode ['complete'] *)

Section CompleteLoop.
Variable szs : list Z.
Variable block_size : Z.

Local Abbreviation guard := (complete_guard szs).
Local Abbreviation body := (complete_body szs block_size).
Local Abbreviation while := (complete_while szs block_size).

Lemma complete_body_advance (st : loop_state) :
  complete_fits szs block_size st = true ->
  body st = {| tok_idx := tok_idx st; sz_idx := S (sz_idx st);
               curr_size := curr_size st + nth (sz_idx st) szs 0;
               emitted := emitted st |}.
Proof. unfold complete_fits, complete_body. by intros ->. Qed.

Lemma complete_body_emit (st : loop_state) :
  complete_fits szs block_size st = false ->
  body st = {| tok_idx := tok_idx st + curr_size st; sz_idx := sz_idx st;
               curr_size := 0;
               emitted := emitted st ++ [(tok_idx st, tok_idx st + curr_size st)] |}.
Proof. unfold complete_fits, complete_body. by intros ->. Qed.

(** An iteration either advances the unit cursor, or emits a block and
    resets the accumulator, after which the next iteration advances. *)
Lemma complete_body_cases (st : loop_state) :
  (sz_idx (body st) = S (sz_idx st) /\ emitted (body st) = emitted st /\
   tok_idx (body st) = tok_idx st)
  \/
  (curr_size st <> 0 /\
   sz_idx (body st) = sz_idx st /\ curr_size (body st) = 0 /\
   tok_idx (body st) = tok_idx st + curr_size st /\
   emitted (body st) = emitted st ++ [(tok_idx st, tok_idx st + curr_size st)] /\
   sz_idx (body (body st)) = S (sz_idx st)).
Proof.
  destruct (complete_fits szs block_size st) eqn:Hc.
  - left. rewrite (complete_body_advance _ Hc). auto.
  - right. rewrite (complete_body_emit _ Hc). simpl.
    apply orb_false_iff in Hc as [_ Hz]. apply Z.eqb_neq in Hz.
    repeat split; auto.
    rewrite complete_body_advance; [done|].
    unfold complete_fits. simpl. apply orb_true_r.
Qed.

Lemma complete_body_measure (st : loop_state) :
  guard st = true ->
  (complete_measure szs (body st) < complete_measure szs st)%nat.
Proof.
  unfold complete_guard, complete_measure, complete_body.
  intros Hg. apply Nat.ltb_lt in Hg.
  destruct (orb _ _) eqn:Hc; simpl.
  - destruct (_ + _ =? 0), (curr_size st =? 0); lia.
  - apply orb_false_iff in Hc as [_ ->]. lia.
Qed.

Lemma complete_while_exit (fuel : nat) (st : loop_state) :
  guard st = false -> while fuel st = Some (O, st).
Proof. intros Hg. destruct fuel; simpl; by rewrite Hg. Qed.

Lemma complete_while_step (fuel : nat) (st : loop_state) :
  guard st = true ->
  while (S fuel) st =
    match while fuel (body st) with
    | Some (n, st') => Some (S n, st')
    | None => None
    end.
Proof. intros Hg. simpl. by rewrite Hg. Qed.

(** Enough fuel: the loop exits, after at most [complete_measure] iterations. *)
Lemma complete_while_terminates (fuel : nat) (st : loop_state) :
  (complete_measure szs st <= fuel)%nat ->
  exists n st', while fuel st = Some (n, st') /\
                (n <= complete_measure szs st)%nat /\ guard st' = false.
Proof.
  revert st. induction fuel as [|fuel IH]; intros st Hm.
  - destruct (guard st) eqn:Hg.
    + pose proof (complete_body_measure st Hg). lia.
    + exists O, st. rewrite complete_while_exit; auto with lia.
  - destruct (guard st) eqn:Hg.
    + pose proof (complete_body_measure st Hg) as Hlt.
      destruct (IH (body st)) as (n & st' & Hw & Hn & Hex); [lia|].
      exists (S n), st'. rewrite complete_while_step, Hw by done.
      repeat split; auto; lia.
    + exists O, st. rewrite complete_while_exit; auto with lia.
Qed.

(** Hoare-style rule: what the body preserves holds on exit. *)
Lemma complete_while_inv (I : loop_state -> Prop) :
  (forall st, I st -> guard st = true -> I (body st)) ->
  forall fuel st n st',
    I st -> while fuel st = Some (n, st') -> I st' /\ guard st' = false.
Proof.
  intros Hstep. induction fuel as [|fuel IH]; intros st n st' HI Hw.
  - simpl in Hw. destruct (guard st) eqn:Hg; [done|].
    injection Hw as _ <-. auto.
  - simpl in Hw. destruct (guard st) eqn:Hg.
    + destruct (while fuel (body st)) as [[m st'']|] eqn:Hw'; [|done].
      injection Hw as _ <-. apply (IH (body st) m); auto.
    + injection Hw as _ <-. auto.
Qed.

(** *** The loop invariant *)

Hypothesis sizes_nonneg : Forall (fun x => 0 <= x) szs.
Hypothesis block_size_pos : 0 < block_size.

Lemma complete_inv_init : complete_inv szs block_size complete_init.
Proof.
  split; simpl; try done; try lia.
  - intros s e H. by apply elem_of_nil in H.
  - intros s e H. by apply elem_of_nil in H.
Qed.

Lemma complete_inv_body (st : loop_state) :
  complete_inv szs block_size st -> guard st = true -> complete_inv szs block_size (body st).
Proof.
  intros [Hidx Hcurr Hp Ht Hends Hbig Hacc] Hg.
  unfold complete_guard in Hg. apply Nat.ltb_lt in Hg.
  destruct (lookup_lt_is_Some_2 szs (sz_idx st) Hg) as [sz Hsz].
  assert (0 <= sz) as Hsz0.
  { eapply (proj1 (Forall_lookup _ _) sizes_nonneg); eauto. }
  unfold complete_body. rewrite (nth_lookup_Some _ _ 0 _ Hsz).
  destruct (orb _ _) eqn:Hc; split; simpl; auto; try lia.
  - rewrite (prefix_S _ _ _ Hsz). lia.
  - intros Hb. apply orb_true_iff in Hc as [Hc|Hc].
    + apply Z.leb_le in Hc. lia.
    + apply Z.eqb_eq in Hc. exists (sz_idx st).
      rewrite Hc in *. rewrite Z.add_0_l. repeat split; auto. lia.
  - apply orb_false_iff in Hc as [_ Hz]. apply Z.eqb_neq in Hz.
    apply tiles_snoc; auto. lia.
  - intros s e [Hin|Hin]%elem_of_app; [eauto|].
    apply list_elem_of_singleton in Hin. injection Hin as -> ->.
    exists (sz_idx st). split; [lia|]. lia.
  - intros s e [Hin|Hin]%elem_of_app Hb; [eauto|].
    apply list_elem_of_singleton in Hin. injection Hin as -> ->.
    destruct Hacc as (j & Hj & Hsj & Hpj); [lia|].
    exists j. split; [|done]. rewrite Hsj. f_equal. lia.
Qed.

(** The state on exit, and the block table after the final flush. *)
Lemma complete_blocks_inv :
  exists n st, while (2 * length szs) complete_init = Some (n, st) /\
               (n <= 2 * length szs)%nat /\
               complete_inv szs block_size st /\ sz_idx st = length szs /\
               complete_blocks szs block_size = Ok (complete_flush st).
Proof.
  destruct (complete_while_terminates (2 * length szs) complete_init)
    as (n & st & Hw & Hn & Hex).
  { unfold complete_measure. simpl. lia. }
  exists n, st.
  destruct (complete_while_inv (complete_inv szs block_size) complete_inv_body _ _ _ _
              complete_inv_init Hw) as [Hinv _].
  unfold complete_measure in Hn. simpl in Hn.
  split; [done|]. split; [lia|]. split; [done|]. split.
  - unfold complete_guard in Hex. apply Nat.ltb_ge in Hex.
    pose proof (inv_idx _ _ _ Hinv). lia.
  - unfold complete_blocks. by rewrite Hw.
Qed.
End CompleteLoop.

Lemma complete_while_more_fuel (szs : list Z) (block_size : Z) (fuel fuel' : nat)
    (st : loop_state) (r : nat * loop_state) :
  complete_while szs block_size fuel st = Some r -> (fuel <= fuel')%nat ->
  complete_while szs block_size fuel' st = Some r.
Proof.
  revert fuel' st r. induction fuel as [|fuel IH]; intros fuel' st r Hw Hle.
  - simpl in Hw. destruct (complete_guard szs st) eqn:Hg; [done|].
    injection Hw as <-. by apply complete_while_exit.
  - simpl in Hw. destruct (complete_guard szs st) eqn:Hg.
    + destruct fuel' as [|fuel']; [lia|].
      rewrite complete_while_step by done.
      destruct (complete_while szs block_size fuel _) as [[n st']|] eqn:Hw'; [|done].
      by rewrite (IH fuel' _ _ Hw') by lia.
    + injection Hw as <-. by apply complete_while_exit.
Qed.

(** The block table of break_mode ['complete'] for non-negative sizes and a
    positive block size. *)
Lemma complete_blocks_spec (szs : list Z) (block_size : Z) :
  Forall (fun x => 0 <= x) szs -> 0 < block_size ->
  exists bl,
    complete_blocks szs block_size = Ok bl /\
    tiles 0 bl (Py.sum szs) /\
    (forall s e, (s, e) ∈ bl -> exists j, (j <= length szs)%nat /\ e = prefix szs j) /\
    (forall s e, (s, e) ∈ bl -> block_size < e - s ->
       exists j, szs !! j = Some (e - s) /\ prefix szs j = s).
Proof.
  intros Hpos Hbs.
  destruct (complete_blocks_inv szs block_size Hpos Hbs)
    as (n & st & _ & _ & [Hidx Hcurr Hp Ht Hends Hbig Hacc] & Hlen & Hbl).
  exists (complete_flush st). split; [done|].
  rewrite Hlen, prefix_all in Hp by lia.
  unfold complete_flush. destruct (0 <? curr_size st) eqn:Hc.
  - apply Z.ltb_lt in Hc. split; [|split].
    + rewrite <- Hp. by apply tiles_snoc; [|lia].
    + intros s e [Hin|Hin]%elem_of_app; [eauto|].
      apply list_elem_of_singleton in Hin. injection Hin as -> ->.
      exists (length szs). split; [lia|]. rewrite prefix_all by lia. lia.
    + intros s e [Hin|Hin]%elem_of_app Hb; [eauto|].
      apply list_elem_of_singleton in Hin. injection Hin as -> ->.
      destruct Hacc as (j & Hj & Hsj & Hpj); [lia|].
      exists j. split; [|done]. rewrite Hsj. f_equal. lia.
  - apply Z.ltb_ge in Hc. assert (curr_size st = 0) as Hz by lia.
    rewrite Hz, Z.add_0_r in Hp. rewrite <- Hp. auto.
Qed.

(** In a tiling whose block ends are unit boundaries, a unit of positive
    size lies inside exactly one block. *)
Lemma unit_in_one_block (szs : list Z) (bl : list block) (j : nat) (sz : Z) :
  Forall (fun x => 0 <= x) szs ->
  tiles 0 bl (Py.sum szs) ->
  (forall s e, (s, e) ∈ bl -> exists k, (k <= length szs)%nat /\ e = prefix szs k) ->
  szs !! j = Some sz -> 0 < sz ->
  exists i s e,
    bl !! i = Some (s, e) /\ s <= prefix szs j /\ prefix szs j + sz <= e /\
    forall i' s' e', bl !! i' = Some (s', e') ->
      s' <= prefix szs j -> prefix szs j + sz <= e' -> i' = i.
Proof.
  intros Hpos Ht Hends Hj Hsz.
  pose proof (prefix_S _ _ _ Hj) as HS.
  pose proof (lookup_lt_Some _ _ _ Hj) as Hlt.
  assert (0 <= prefix szs j) as H0.
  { rewrite <- (prefix_0 szs). apply prefix_mono; [done|lia]. }
  assert (prefix szs (S j) <= Py.sum szs) as HN.
  { rewrite <- (prefix_all szs (length szs)) by lia. apply prefix_mono; [done|lia]. }
  destruct (tiles_cover 0 (Py.sum szs) (prefix szs j) bl Ht) as (i & s & e & Hi & Hr); [lia|].
  exists i, s, e. split; [done|]. split; [lia|]. split.
  - destruct (Hends s e) as (k & Hk & ->).
    { apply list_elem_of_lookup. eauto. }
    destruct (decide (S j <= k)%nat) as [Hle|Hgt].
    + rewrite <- HS. by apply prefix_mono.
    + assert (prefix szs k <= prefix szs j); [apply prefix_mono; [done|lia]|lia].
  - intros i' s' e' Hi' Hs' He'.
    destruct (lt_eq_lt_dec i' i) as [[Hlt'|Heq]|Hgt]; [|done|].
    + pose proof (tiles_ordered _ _ _ _ _ _ _ _ _ Ht Hi' Hi Hlt'). lia.
    + pose proof (tiles_ordered _ _ _ _ _ _ _ _ _ Ht Hi Hi' Hgt). lia.
Qed.

(** ** The unit loop of break_mode ['eos'] *)

Lemma eos_fold (szs : list Z) (c : Z) (out : list block) :
  fold_left eos_body szs (c, out) = (c + Py.sum szs, out ++ eos_from c szs).
Proof.
  revert c out. induction szs as [|sz szs IH]; intros c out; simpl.
  - rewrite sum_nil, Z.add_0_r, app_nil_r. done.
  - rewrite IH, sum_cons. destruct (0 <? sz); f_equal; try lia.
    by rewrite <- app_assoc.
Qed.

Lemma eos_blocks_from (szs : list Z) : eos_blocks szs = eos_from 0 szs.
Proof. unfold eos_blocks. by rewrite eos_fold. Qed.

Lemma eos_from_length (c : Z) (szs : list Z) :
  Forall (fun x => 0 <= x) szs ->
  length (eos_from c szs) = length (filter nonzero szs).
Proof.
  intros Hpos. revert c. induction Hpos as [|sz szs Hsz _ IH]; intros c; [done|].
  simpl. rewrite filter_cons. destruct (0 <? sz) eqn:Hc.
  - apply Z.ltb_lt in Hc. rewrite decide_True by (unfold nonzero; lia).
    simpl. by rewrite IH.
  - apply Z.ltb_ge in Hc. rewrite decide_False by (unfold nonzero; lia).
    by rewrite IH.
Qed.

Lemma eos_from_lookup (c : Z) (szs : list Z) (j : nat) (sz : Z) :
  Forall (fun x => 0 <= x) szs ->
  szs !! j = Some sz -> sz <> 0 ->
  eos_from c szs !! length (filter nonzero (take j szs))
  = Some (c + prefix szs j, c + prefix szs j + sz).
Proof.
  intros Hpos. revert c j.
  induction Hpos as [|x szs Hx _ IH]; intros c j Hj Hsz; [done|].
  destruct j as [|j]; simpl in Hj.
  - injection Hj as ->. simpl. rewrite prefix_0, Z.add_0_r.
    assert ((0 <? sz) = true) as -> by (apply Z.ltb_lt; lia). done.
  - assert (prefix (x :: szs) (S j) = x + prefix szs j) as ->.
    { unfold prefix. simpl. by rewrite sum_cons. }
    specialize (IH (c + x) j Hj Hsz). rewrite !Z.add_assoc.
    simpl. rewrite filter_cons. destruct (0 <? x) eqn:Hc.
    + apply Z.ltb_lt in Hc. rewrite decide_True by (unfold nonzero; lia). done.
    + apply Z.ltb_ge in Hc. rewrite decide_False by (unfold nonzero; lia). done.
Qed.

Lemma eos_from_filter (c : Z) (szs : list Z) :
  Forall (fun x => 0 <= x) szs ->
  eos_from c (filter nonzero szs) = eos_from c szs.
Proof.
  intros Hpos. revert c. induction Hpos as [|x szs Hx _ IH]; intros c; [done|].
  rewrite filter_cons. simpl. destruct (0 <? x) eqn:Hc.
  - apply Z.ltb_lt in Hc. rewrite decide_True by (unfold nonzero; lia).
    simpl. assert ((0 <? x) = true) as -> by (apply Z.ltb_lt; lia). by rewrite IH.
  - apply Z.ltb_ge in Hc. rewrite decide_False by (unfold nonzero; lia).
    assert (x = 0) as -> by lia. rewrite Z.add_0_r. apply IH.
Qed.

(** Every block of the table is the range of some unit of non-zero size. *)
Lemma eos_from_elem (c : Z) (szs : list Z) (s e : Z) :
  Forall (fun x => 0 <= x) szs ->
  (s, e) ∈ eos_from c szs ->
  exists j sz, szs !! j = Some sz /\ sz <> 0 /\
               s = c + prefix szs j /\ e = s + sz.
Proof.
  intros Hpos. revert c. induction Hpos as [|x szs Hx _ IH]; intros c Hin.
  - by apply elem_of_nil in Hin.
  - simpl in Hin.
    assert ((s, e) = (c, c + x) /\ 0 < x \/ (s, e) ∈ eos_from (c + x) szs) as [[Heq Hlt]|Hin'].
    { destruct (0 <? x) eqn:Hc; [|by right].
      apply Z.ltb_lt in Hc. apply elem_of_cons in Hin as [Heq|Hin]; auto. }
    + injection Heq as -> ->. exists 0%nat, x. rewrite prefix_0.
      repeat split; auto; lia.
    + destruct (IH _ Hin') as (j & sz & Hj & Hsz & -> & ->).
      exists (S j), sz. split; [done|]. split; [done|].
      unfold prefix. simpl. rewrite sum_cons. fold (prefix szs j). lia.
Qed.

Lemma chain_weaken (a a' : Z) (bl : list block) :
  chain a bl -> a' <= a -> chain a' bl.
Proof. destruct bl as [|[s e] bl]; simpl; [done|]. intros (? & ? & ?) ?. auto with lia. Qed.

Lemma tiles_chain (a b : Z) (bl : list block) : tiles a bl b -> chain a bl.
Proof.
  revert a. induction bl as [|[s e] bl IH]; intros a; simpl; [done|].
  intros (-> & ? & ?). auto with lia.
Qed.

Lemma eos_from_chain (c : Z) (szs : list Z) :
  Forall (fun x => 0 <= x) szs -> chain c (eos_from c szs).
Proof.
  intros Hpos. revert c. induction Hpos as [|x szs Hx _ IH]; intros c; [done|].
  simpl. destruct (0 <? x) eqn:Hc.
  - apply Z.ltb_lt in Hc. simpl. auto with lia.
  - apply (chain_weaken (c + x)); [apply IH|lia].
Qed.

Lemma chain_lookup (a : Z) (bl : list block) (i : nat) (s e : Z) :
  chain a bl -> bl !! i = Some (s, e) ->
  a <= s /\ s < e /\ chain e (drop (S i) bl).
Proof.
  revert a i. induction bl as [|[s0 e0] bl IH]; intros a i Hc Hi; [done|].
  destruct Hc as (Ha & Hlt & Hc). destruct i as [|i]; simpl in Hi.
  - injection Hi as -> ->. simpl. rewrite drop_0. auto.
  - destruct (IH _ _ Hc Hi) as (? & ? & ?). simpl. auto with lia.
Qed.

(** Consecutive blocks of a chain: strictly increasing starts, no overlap. *)
Lemma chain_consecutive (a : Z) (bl : list block) (i : nat) (s e s' e' : Z) :
  chain a bl -> bl !! i = Some (s, e) -> bl !! S i = Some (s', e') ->
  s < s' /\ e <= s'.
Proof.
  intros Hc Hi Hi'.
  destruct (chain_lookup _ _ _ _ _ Hc Hi) as (_ & Hlt & Hd).
  assert (drop (S i) bl !! 0%nat = Some (s', e')) as H0.
  { rewrite lookup_drop. by rewrite Nat.add_0_r. }
  destruct (chain_lookup _ _ _ _ _ Hd H0) as (? & _ & _). lia.
Qed.

(** ** [math.ceil(total_size / block_size)] *)

Lemma round_half_even_bounds (n d : Z) :
  0 < d ->
  2 * (d * Py.round_half_even n d) - d <= 2 * n <= 2 * (d * Py.round_half_even n d) + d.
Proof.
  intros Hd. unfold Py.round_half_even.
  pose proof (Z.div_mod n d ltac:(lia)) as Hn.
  pose proof (Z.mod_pos_bound n d Hd) as Hr.
  destruct (2 * (n mod d) <? d) eqn:H1; [apply Z.ltb_lt in H1; lia|].
  apply Z.ltb_ge in H1.
  destruct (d <? 2 * (n mod d)) eqn:H2; [apply Z.ltb_lt in H2; lia|].
  apply Z.ltb_ge in H2.
  destruct (Z.even (n / d)); lia.
Qed.

Lemma quot_log2_lower (a b : Z) :
  0 < a -> 0 < b ->
  (0 <= Py.quot_log2 a b -> b * 2 ^ Py.quot_log2 a b <= a) /\
  (Py.quot_log2 a b < 0 -> b <= a * 2 ^ (- Py.quot_log2 a b)) /\
  Py.quot_log2 a b <= Z.log2 a - Z.log2 b.
Proof.
  intros Ha Hb. unfold Py.quot_log2.
  pose proof (Z.log2_spec a Ha) as [Ha1 Ha2].
  pose proof (Z.log2_spec b Hb) as [Hb1 Hb2].
  pose proof (Z.log2_nonneg a) as Hla. pose proof (Z.log2_nonneg b) as Hlb.
  set (la := Z.log2 a) in *. set (lb := Z.log2 b) in *.
  rewrite Z.pow_succ_r in Ha2, Hb2 by done.
  destruct (0 <=? la - lb) eqn:Hd.
  - apply Z.leb_le in Hd.
    destruct (b * 2 ^ (la - lb) <=? a) eqn:Ht.
    + apply Z.leb_le in Ht. repeat split; lia.
    + split; [|split; [|lia]].
      * intros Hfl.
        assert (2 ^ la = 2 * 2 ^ lb * 2 ^ (la - lb - 1)) as Hpow.
        { rewrite <- Z.pow_succ_r, <- Z.pow_add_r by lia. f_equal; lia. }
        assert (0 < 2 ^ (la - lb - 1)) by (apply Z.pow_pos_nonneg; lia).
        nia.
      * intros Hfl. assert (la = lb) as Heq by lia.
        replace (- (la - lb - 1)) with 1 by lia. rewrite Heq in *. lia.
  - apply Z.leb_gt in Hd.
    destruct (b <=? a * 2 ^ (- (la - lb))) eqn:Ht.
    + apply Z.leb_le in Ht. repeat split; lia.
    + split; [lia|split; [|lia]]. intros _.
      assert (2 * 2 ^ lb = 2 ^ la * 2 ^ (- (la - lb - 1))) as Hpow.
      { rewrite <- Z.pow_succ_r, <- Z.pow_add_r by lia. f_equal; lia. }
      assert (0 < 2 ^ (- (la - lb - 1))) by (apply Z.pow_pos_nonneg; lia).
      nia.
Qed.

Lemma ceil_div_spec (a b : Z) :
  0 < b -> (ceil_div a b - 1) * b < a <= ceil_div a b * b.
Proof.
  intros Hb. unfold ceil_div.
  pose proof (Z.div_mod (a + b - 1) b ltac:(lia)).
  pose proof (Z.mod_pos_bound (a + b - 1) b Hb). nia.
Qed.

(** Below [2 ^ 53] the float quotient is accurate enough for [math.ceil]
    to return the exact ceiling. *)
Lemma true_div_ceil (a b : Z) :
  0 <= a < 2 ^ 53 -> 0 < b < 2 ^ 53 ->
  exists x, Py.true_div a b = Ok x /\ Py.ceil x = ceil_div a b.
Proof.
  intros Ha Hb. unfold Py.true_div. cbv zeta.
  rewrite (proj2 (Z.eqb_neq b 0)) by lia.
  destruct (a =? 0) eqn:Ha0.
  { apply Z.eqb_eq in Ha0. subst a. eexists. split; [done|].
    unfold Py.ceil, ceil_div. simpl. rewrite Z.add_0_l.
    symmetry. apply Z.div_small. lia. }
  apply Z.eqb_neq in Ha0.
  rewrite !Z.abs_eq by lia.
  rewrite (Z.sgn_pos a), (Z.sgn_pos b) by lia.
  destruct (quot_log2_lower a b) as (Hfl1 & Hfl2 & Hfl3); [lia..|].
  set (fl := Py.quot_log2 a b) in *.
  assert (fl <= 52) as Hfl.
  { assert (Z.log2 a < 53) by (apply Z.log2_lt_pow2; lia).
    pose proof (Z.log2_nonneg b). lia. }
  set (e := Z.max (fl - 52) (-1074)).
  assert (e <= 0) as He by lia.
  pose proof (ceil_div_spec a b ltac:(lia)) as Hk.
  set (k := ceil_div a b) in *.
  (* the mantissa, uniformly as the rounding of [a * 2 ^ (- e) / b] *)
  set (P := 2 ^ (- e)).
  assert (0 < P) as HP by (apply Z.pow_pos_nonneg; lia).
  assert ((if 0 <=? e then Py.round_half_even a (b * 2 ^ e)
           else Py.round_half_even (a * P) b)
          = Py.round_half_even (a * P) b) as ->.
  { destruct (0 <=? e) eqn:He0; [|done]. apply Z.leb_le in He0.
    assert (e = 0) as He00 by lia. unfold P. rewrite He00. simpl.
    by rewrite !Z.mul_1_r. }
  (* the divisor is below twice the scaling factor *)
  assert (b < 2 * P) as HbP.
  { unfold P. rewrite <- Z.pow_succ_r by lia.
    destruct (Z.max_spec (fl - 52) (-1074)) as [[_ Hm]|[_ Hm]]; fold e in Hm.
    - rewrite Hm. simpl. change (2 ^ 1075) with (2 ^ 53 * 2 ^ 1022).
      assert (0 < 2 ^ 1022) by (apply Z.pow_pos_nonneg; lia). nia.
    - rewrite Hm. replace (Z.succ (- (fl - 52))) with (53 - fl) by lia.
      destruct (decide (0 <= fl)) as [Hpos|Hneg].
      + specialize (Hfl1 Hpos).
        assert (2 ^ 53 = 2 ^ (53 - fl) * 2 ^ fl) as Hpow.
        { rewrite <- Z.pow_add_r by lia. f_equal; lia. }
        assert (0 < 2 ^ fl) by (apply Z.pow_pos_nonneg; lia). nia.
      + specialize (Hfl2 ltac:(lia)).
        assert (2 ^ (53 - fl) = 2 ^ 53 * 2 ^ (- fl)) as Hpow.
        { rewrite <- Z.pow_add_r by lia. f_equal; lia. }
        assert (0 < 2 ^ (- fl)) by (apply Z.pow_pos_nonneg; lia). nia. }
  pose proof (round_half_even_bounds (a * P) b ltac:(lia)) as Hm.
  set (m := Py.round_half_even (a * P) b) in *.
  assert ((k - 1) * P < m <= k * P) as Hmk.
  { split.
    - apply Z.nle_gt. intros Hle.
      assert (b * m <= b * ((k - 1) * P)) by (apply Z.mul_le_mono_nonneg_l; lia).
      nia.
    - apply Z.nlt_ge. intros Hlt.
      assert (b * (k * P + 1) <= b * m) by (apply Z.mul_le_mono_nonneg_l; lia).
      nia. }
  assert (k <= a) as Hka by nia.
  assert ((0 <=? e) && (2 ^ 1024 <=? m * 2 ^ e) = false) as ->.
  { destruct (0 <=? e) eqn:He0; [|done]. apply Z.leb_le in He0.
    assert (e = 0) as He00 by lia. simpl. apply Z.leb_gt.
    unfold P in *. rewrite He00 in *. simpl in Hmk. rewrite Z.pow_0_r in *.
    change (2 ^ 1024) with (2 ^ 53 * 2 ^ 971).
    assert (0 < 2 ^ 971) by (apply Z.pow_pos_nonneg; lia). nia. }
  eexists. split; [done|]. unfold Py.ceil. simpl.
  rewrite !Z.mul_1_l.
  destruct (0 <=? e) eqn:He0.
  - apply Z.leb_le in He0. assert (e = 0) as He00 by lia.
    unfold P in *. rewrite He00 in *. simpl in Hmk. rewrite Z.pow_0_r in *. lia.
  - fold P. symmetry. apply Z.opp_inj. rewrite Z.opp_involutive.
    apply (Z.div_unique_pos _ _ _ (k * P - m)); lia.
Qed.

(** ** The block table of break_mode ['none'] *)

Lemma range_length (n : Z) : length (Py.range n) = Z.to_nat n.
Proof. unfold Py.range. by rewrite length_map, length_seq. Qed.

Lemma range_lookup (n : Z) (i : nat) :
  (i < Z.to_nat n)%nat -> Py.range n !! i = Some (Z.of_nat i).
Proof.
  intros Hi. unfold Py.range. rewrite list_lookup_fmap.
  rewrite lookup_seq_lt by done. done.
Qed.

Lemma range_S (n : nat) :
  Py.range (Z.of_nat (S n)) = Py.range (Z.of_nat n) ++ [Z.of_nat n].
Proof. unfold Py.range. rewrite !Nat2Z.id, seq_S, map_app. done. Qed.

(** The result of the constructor's arithmetic, whatever the float does:
    some number of blocks laid out by [block_at], or an overflow. *)
Lemma none_blocks_shape (szs : list Z) (block_size : Z) :
  block_size <> 0 ->
  (exists L, none_blocks szs block_size
             = Ok (map (block_at block_size (Py.sum szs)) (Py.range L)))
  \/ none_blocks szs block_size = Raise OverflowError.
Proof.
  intros Hb. unfold none_blocks, Py.true_div. cbv zeta.
  rewrite (proj2 (Z.eqb_neq block_size 0)) by done.
  destruct (Py.sum szs =? 0); [left; eexists; reflexivity|].
  destruct (andb _ _); [by right|left; eexists; reflexivity].
Qed.

Lemma none_blocks_exact (szs : list Z) (block_size : Z) :
  0 <= Py.sum szs < 2 ^ 53 -> 0 < block_size < 2 ^ 53 ->
  none_blocks szs block_size
  = Ok (map (block_at block_size (Py.sum szs))
            (Py.range (ceil_div (Py.sum szs) block_size))).
Proof.
  intros HN Hb. unfold none_blocks.
  destruct (true_div_ceil _ _ HN Hb) as (x & -> & <-). done.
Qed.

Section NoneBlocks.
Variable block_size N : Z.
Hypothesis block_size_pos : 0 < block_size.

Lemma block_at_lookup (L : Z) (i : nat) (s e : Z) :
  map (block_at block_size N) (Py.range L) !! i = Some (s, e) ->
  s = Z.of_nat i * block_size /\ e = Z.min (s + block_size) N /\
  (i < Z.to_nat L)%nat.
Proof.
  intros Hi. rewrite list_lookup_fmap in Hi.
  destruct (Py.range L !! i) as [x|] eqn:Hx; [|done].
  pose proof (lookup_lt_Some _ _ _ Hx) as Hlt. rewrite range_length in Hlt.
  rewrite (range_lookup _ _ Hlt) in Hx. injection Hx as <-.
  simpl in Hi. unfold block_at in Hi. injection Hi as <- <-. auto.
Qed.

(** The first [n] blocks are full when [n * block_size] tokens exist. *)
Lemma full_blocks_tile (n : nat) :
  Z.of_nat n * block_size <= N ->
  tiles 0 (map (block_at block_size N) (Py.range (Z.of_nat n)))
        (Z.of_nat n * block_size).
Proof.
  induction n as [|n IH]; intros Hn; [done|].
  rewrite range_S, map_app. simpl.
  replace (Z.of_nat (S n) * block_size)
    with (Z.min (Z.of_nat n * block_size + block_size) N) by lia.
  apply tiles_snoc; [apply IH|]; lia.
Qed.

Lemma exact_blocks_tile :
  0 <= N ->
  tiles 0 (map (block_at block_size N) (Py.range (ceil_div N block_size))) N.
Proof.
  intros HN. pose proof (ceil_div_spec N block_size block_size_pos) as Hk.
  set (k := ceil_div N block_size) in *.
  destruct (decide (k <= 0)) as [Hk0|Hk0].
  - assert (N = 0) as -> by nia.
    unfold Py.range. rewrite Z2Nat.nonpos by lia. done.
  - replace k with (Z.of_nat (S (Z.to_nat (k - 1)))) by lia.
    rewrite range_S, map_app. simpl.
    replace (Z.of_nat (Z.to_nat (k - 1))) with (k - 1) by lia.
    replace N with (Z.min ((k - 1) * block_size + block_size) N) at 3 by lia.
    apply tiles_snoc; [|lia].
    replace (k - 1) with (Z.of_nat (Z.to_nat (k - 1))) by lia.
    apply full_blocks_tile. lia.
Qed.
End NoneBlocks.

(** The lengths of the blocks of a tiling add up to the tiled range. *)
Lemma tiles_lengths (a b : Z) (bl : list block) :
  tiles a bl b -> Py.sum (map (fun '(s, e) => e - s) bl) = b - a.
Proof.
  revert a. induction bl as [|[s e] bl IH]; intros a; simpl.
  - intros ->. rewrite sum_nil. lia.
  - intros (-> & _ & Ht). rewrite sum_cons, (IH _ Ht). lia.
Qed.

(** ** Slices *)

Lemma slice_bound_in (n : nat) (x : Z) :
  0 <= x <= Z.of_nat n -> Py.slice_bound n x = Z.to_nat x.
Proof.
  intros Hx. unfold Py.slice_bound.
  rewrite (proj2 (Z.ltb_ge x 0)) by lia. f_equal. lia.
Qed.

Lemma slice_in {A} (l : list A) (a b : Z) :
  0 <= a <= b -> b <= Z.of_nat (length l) ->
  Py.slice l a b = take (Z.to_nat (b - a)) (drop (Z.to_nat a) l).
Proof.
  intros Hab Hb. unfold Py.slice.
  rewrite !slice_bound_in by lia. f_equal. lia.
Qed.

Lemma slice_in_length {A} (l : list A) (a b : Z) :
  0 <= a <= b -> b <= Z.of_nat (length l) ->
  Z.of_nat (length (Py.slice l a b)) = b - a.
Proof.
  intros Hab Hb. rewrite slice_in by done.
  rewrite length_take, length_drop. lia.
Qed.

Lemma slice_in_lookup {A} (l : list A) (a b : Z) (k : nat) :
  0 <= a <= b -> b <= Z.of_nat (length l) -> Z.of_nat k < b - a ->
  Py.slice l a b !! k = l !! (Z.to_nat a + k)%nat.
Proof.
  intros Hab Hb Hk. rewrite slice_in by done.
  rewrite lookup_take_lt by lia. apply lookup_drop.
Qed.

(** ** Stepping through [prefetch] *)

Lemma same_config_refl (self : TokenBlockDataset) : same_config self self.
Proof. by repeat split. Qed.

Lemma same_config_trans (a b c : TokenBlockDataset) :
  same_config a b -> same_config b c -> same_config a c.
Proof.
  intros (?&?&?&?&?&?) (?&?&?&?&?&?). repeat split; congruence.
Qed.

Lemma prefetch_total_cons (idx : Z) (rest : list Z) (total_size : Z)
    (self : TokenBlockDataset) :
  prefetch_total (idx :: rest) total_size self =
    match Py.getitem (slice_indices self) idx with
    | Ok (s, e) => prefetch_total rest (total_size + (e - s)) self
    | Raise x => (Raise x, self)
    end.
Proof.
  simpl. unfold mbind, M_mbind, m_bind, m_self, m_lift.
  by destruct (Py.getitem _ _) as [[s e]|x].
Qed.

Lemma prefetch_fill_cons (idx : Z) (rest : list Z) (start : Z)
    (self : TokenBlockDataset) :
  prefetch_fill (idx :: rest) start self =
    match Py.getitem (slice_indices self) idx with
    | Ok (s, e) =>
        match cache self with
        | Some buf =>
            let a := Py.slice_bound (length buf) start in
            let b := Py.slice_bound (length buf) (start + e - s) in
            match read_into (dataset self) s (b - a) with
            | Ok data =>
                prefetch_fill rest (start + (e - s))
                  (set_cache_index idx (start, start + e - s)
                     (set_cache (write_at buf a data) self))
            | Raise x => (Raise x, self)
            end
        | None => (Raise AttributeError, self)
        end
    | Raise x => (Raise x, self)
    end.
Proof.
  simpl. unfold mbind, M_mbind, m_bind, m_self, m_lift, m_update.
  destruct (Py.getitem _ _) as [[s e]|x]; [|done].
  destruct (cache self) as [buf|]; [|done].
  by destruct (read_into _ _ _).
Qed.

Lemma prefetch_unfold (junk : nat -> Z) (indices : list Z) (self : TokenBlockDataset) :
  prefetch junk indices self =
    match prefetch_total (merge_sort Z.le indices) 0 self with
    | (Ok total_size, self1) =>
        match np_empty junk total_size with
        | Ok buf => prefetch_fill (merge_sort Z.le indices) 0 (set_cache buf self1)
        | Raise x => (Raise x, self1)
        end
    | (Raise x, self1) => (Raise x, self1)
    end.
Proof.
  unfold prefetch. unfold mbind, M_mbind, m_bind, m_lift, m_update.
  destruct (prefetch_total _ _ _) as [[total|x] self1]; [|done].
  by destruct (np_empty _ _).
Qed.

(** The first loop leaves the object alone. *)
Lemma prefetch_total_self (indices : list Z) (total_size : Z)
    (self : TokenBlockDataset) :
  snd (prefetch_total indices total_size self) = self.
Proof.
  revert total_size. induction indices as [|idx rest IH]; intros total_size; [done|].
  rewrite prefetch_total_cons. destruct (Py.getitem _ _) as [[s e]|x]; [apply IH|done].
Qed.

Lemma prefetch_total_ok (indices : list Z) (total_size : Z)
    (self : TokenBlockDataset) :
  valid_ids (slice_indices self) indices ->
  prefetch_total indices total_size self
  = (Ok (total_size + Py.sum (map (block_len (slice_indices self)) indices)), self).
Proof.
  intros Hv. revert total_size.
  induction Hv as [|idx rest [[s e] Hidx] _ IH]; intros total_size.
  - simpl. rewrite sum_nil, Z.add_0_r. done.
  - rewrite prefetch_total_cons, Hidx, IH. simpl. rewrite sum_cons.
    unfold block_len at 2. rewrite Hidx. do 2 f_equal. lia.
Qed.


(** ** A successful [prefetch] *)

Lemma getitem_elem {A} (l : list A) (i : Z) (x : A) :
  Py.getitem l i = Ok x -> x ∈ l.
Proof.
  unfold Py.getitem. destruct (andb _ _); [|done].
  destruct (l !! _) as [y|] eqn:Hy; [|done].
  intros [= <-]. apply list_elem_of_lookup. eauto.
Qed.

Lemma wf_blocks_getitem (ds : TokenStream) (bl : list block) (i s e : Z) :
  wf_blocks ds bl -> Py.getitem bl i = Ok (s, e) ->
  0 <= s <= e /\ e <= Z.of_nat (length (ds_tokens ds)).
Proof.
  intros Hwf Hi. apply getitem_elem in Hi.
  by apply (proj1 (Forall_forall _ _) Hwf (s, e)).
Qed.

Lemma block_len_nonneg (ds : TokenStream) (bl : list block) (i : Z) :
  wf_blocks ds bl -> 0 <= block_len bl i.
Proof.
  intros Hwf. unfold block_len.
  destruct (Py.getitem bl i) as [[s e]|] eqn:Hi; [|done].
  destruct (wf_blocks_getitem _ _ _ _ _ Hwf Hi). lia.
Qed.

Lemma total_len_nonneg (ds : TokenStream) (bl : list block) (ids : list Z) :
  wf_blocks ds bl -> 0 <= Py.sum (map (block_len bl) ids).
Proof.
  intros Hwf. apply sum_nonneg, Forall_map, Forall_forall.
  intros i _. by apply (block_len_nonneg ds).
Qed.

Lemma sum_Permutation (xs ys : list Z) : xs ≡ₚ ys -> Py.sum xs = Py.sum ys.
Proof.
  induction 1 as [|x xs ys _ IH|x y xs|xs ys zs _ IH1 _ IH2].
  - done.
  - rewrite !sum_cons. lia.
  - rewrite !sum_cons. lia.
  - congruence.
Qed.

Lemma read_into_ok (ds : TokenStream) (s : Z) (L : nat) :
  0 <= s -> s + Z.of_nat L <= Z.of_nat (length (ds_tokens ds)) ->
  read_into ds s L = Ok (take L (drop (Z.to_nat s) (ds_tokens ds))) /\
  length (take L (drop (Z.to_nat s) (ds_tokens ds))) = L.
Proof.
  intros Hs HL. unfold read_into.
  rewrite (proj2 (Z.leb_le 0 s)), (proj2 (Z.leb_le _ _) HL) by done.
  split; [done|]. rewrite length_take, length_drop. lia.
Qed.

Lemma write_at_length (buf : list Z) (a : nat) (data : list Z) :
  (a + length data <= length buf)%nat ->
  length (write_at buf a data) = length buf.
Proof.
  intros H. unfold write_at. rewrite !length_app, length_take, length_drop. lia.
Qed.

Lemma write_at_take (buf : list Z) (a : nat) (data : list Z) :
  (a <= length buf)%nat -> take a (write_at buf a data) = take a buf.
Proof.
  intros H. unfold write_at. rewrite take_app_le by (rewrite length_take; lia).
  rewrite take_take. f_equal. lia.
Qed.

Lemma write_at_data (buf : list Z) (a : nat) (data : list Z) :
  (a <= length buf)%nat ->
  take (length data) (drop a (write_at buf a data)) = data.
Proof.
  intros H. unfold write_at.
  rewrite drop_app_length' by (rewrite length_take; lia).
  by rewrite take_app_length.
Qed.

Lemma write_at_take_data (buf : list Z) (a : nat) (data : list Z) :
  (a <= length buf)%nat ->
  take (a + length data) (write_at buf a data) = take a buf ++ data.
Proof.
  intros H. unfold write_at. rewrite app_assoc.
  apply take_app_length'. rewrite length_app, length_take. lia.
Qed.

Lemma write_at_drop (buf : list Z) (a n : nat) (data : list Z) :
  (a + length data <= n)%nat -> (a + length data <= length buf)%nat ->
  drop n (write_at buf a data) = drop n buf.
Proof.
  intros Hn Hlen. unfold write_at. rewrite app_assoc.
  rewrite drop_app_ge by (rewrite length_app, length_take; lia).
  rewrite length_app, length_take, drop_drop. f_equal. lia.
Qed.

(** What lies below an offset determines every region that ends there. *)
Lemma take_drop_below {A} (l l' : list A) (a n m : nat) :
  take m l = take m l' -> (a + n <= m)%nat ->
  take n (drop a l) = take n (drop a l').
Proof.
  intros H Hle. rewrite !take_drop_commute.
  assert (take (a + n) l = take (a + n) l') as ->; [|done].
  rewrite <- (Nat.min_l (a + n) m) by lia. rewrite <- !take_take. by rewrite H.
Qed.

Lemma prefetch_fill_ok (ids : list Z) (start : Z) (self : TokenBlockDataset)
    (buf : list Z) :
  cache self = Some buf ->
  wf_blocks (dataset self) (slice_indices self) ->
  valid_ids (slice_indices self) ids ->
  0 <= start ->
  start + Py.sum (map (block_len (slice_indices self)) ids) <= Z.of_nat (length buf) ->
  exists self' buf',
    prefetch_fill ids start self = (Ok tt, self') /\
    same_config self self' /\
    cache self' = Some buf' /\ length buf' = length buf /\
    take (Z.to_nat start) buf' = take (Z.to_nat start) buf /\
    (forall id, id ∉ ids -> cache_index self' !! id = cache_index self !! id) /\
    (forall id s e, id ∈ ids -> Py.getitem (slice_indices self) id = Ok (s, e) ->
       exists a, cache_index self' !! id = Some (a, a + (e - s)) /\
                 start <= a /\
                 a + (e - s) <= start + Py.sum (map (block_len (slice_indices self)) ids) /\
                 take (Z.to_nat (e - s)) (drop (Z.to_nat a) buf')
                 = take (Z.to_nat (e - s)) (drop (Z.to_nat s) (ds_tokens (dataset self)))).
Proof.
  revert start self buf.
  induction ids as [|id0 rest IH]; intros start self buf Hc Hwf Hv Hstart Hfit.
  { exists self, buf. repeat split; auto.
    intros id s e Hin. by apply elem_of_nil in Hin. }
  apply Forall_cons in Hv as [[[s0 e0] Hid0] Hv].
  destruct (wf_blocks_getitem _ _ _ _ _ Hwf Hid0) as [Hse He].
  simpl in Hfit. rewrite sum_cons in Hfit.
  assert (block_len (slice_indices self) id0 = e0 - s0) as Hlen0.
  { unfold block_len. by rewrite Hid0. }
  pose proof (total_len_nonneg (dataset self) _ rest Hwf) as Hrest.
  rewrite Hlen0 in Hfit.
  rewrite prefetch_fill_cons, Hid0, Hc. cbv zeta.
  rewrite !slice_bound_in by lia.
  replace (Z.to_nat (start + e0 - s0) - Z.to_nat start)%nat
    with (Z.to_nat (e0 - s0)) by lia.
  destruct (read_into_ok (dataset self) s0 (Z.to_nat (e0 - s0))) as [-> Hdata]; [lia..|].
  set (data := take _ (drop (Z.to_nat s0) _)) in *.
  set (buf1 := write_at buf (Z.to_nat start) data).
  set (self1 := set_cache_index _ _ _).
  assert (length buf1 = length buf) as Hlen1.
  { apply write_at_length. lia. }
  destruct (IH (start + (e0 - s0)) self1 buf1) as
    (self' & buf' & Hrun & Hcfg & Hc' & Hlen' & Htake & Hother & Hentries);
    [done|done|done|lia|simpl; lia|].
  simpl in Hentries.
  exists self', buf'. split; [done|]. split.
  { apply (same_config_trans _ self1); [by repeat split|done]. }
  split; [done|]. split; [lia|]. split.
  { rewrite <- (Nat.min_l (Z.to_nat start) (Z.to_nat (start + (e0 - s0)))) by lia.
    rewrite <- !take_take, Htake, !take_take, Nat.min_l by lia.
    apply write_at_take. lia. }
  split.
  { intros id [Hne Hnin]%not_elem_of_cons. rewrite (Hother _ Hnin).
    simpl. by rewrite lookup_insert_ne. }
  intros id s e Hin Hid. simpl. rewrite sum_cons, Hlen0.
  destruct (decide (id ∈ rest)) as [Hr|Hr].
  - destruct (Hentries id s e Hr Hid) as (a & Ha & Hle & Hbound & Hcontent).
    exists a. simpl in Hbound. repeat split; auto; lia.
  - apply elem_of_cons in Hin as [->|Hin]; [|done].
    rewrite Hid0 in Hid. injection Hid as <- <-.
    exists start. rewrite (Hother _ Hr). simpl. rewrite lookup_insert_eq.
    split; [do 2 f_equal; lia|]. split; [lia|]. split; [lia|].
    rewrite (take_drop_below buf' buf1 _ _ _ Htake) by lia.
    rewrite <- Hdata at 1. apply write_at_data. lia.
Qed.

Lemma np_empty_ok (junk : nat -> Z) (n : Z) :
  0 <= n ->
  exists buf, np_empty junk n = Ok buf /\ Z.of_nat (length buf) = n.
Proof.
  intros Hn. unfold np_empty. rewrite (proj2 (Z.ltb_ge n 0)) by done.
  eexists. split; [done|]. rewrite length_map, length_seq. lia.
Qed.


Lemma valid_ids_sort (bl : list block) (ids : list Z) :
  valid_ids bl ids -> valid_ids bl (merge_sort Z.le ids).
Proof. unfold valid_ids. by rewrite merge_sort_Permutation. Qed.

Lemma total_len_sort (bl : list block) (ids : list Z) :
  Py.sum (map (block_len bl) (merge_sort Z.le ids))
  = Py.sum (map (block_len bl) ids).
Proof. apply sum_Permutation, Permutation_map, merge_sort_Permutation. Qed.

Lemma elem_of_sort (ids : list Z) (id : Z) : id ∈ merge_sort Z.le ids <-> id ∈ ids.
Proof. by rewrite merge_sort_Permutation. Qed.

(** [prefetch] over valid ids of a well-formed table returns, with a buffer
    of the summed length of the requested blocks (one copy per request), and
    an entry per requested id that locates a copy of its block. *)
Lemma prefetch_ok (junk : nat -> Z) (ids : list Z) (self : TokenBlockDataset) :
  wf_blocks (dataset self) (slice_indices self) ->
  valid_ids (slice_indices self) ids ->
  exists self' buf',
    prefetch junk ids self = (Ok tt, self') /\
    same_config self self' /\
    cache self' = Some buf' /\
    Z.of_nat (length buf') = Py.sum (map (block_len (slice_indices self)) ids) /\
    (forall id, id ∉ ids -> cache_index self' !! id = cache_index self !! id) /\
    (forall id s e, id ∈ ids -> Py.getitem (slice_indices self) id = Ok (s, e) ->
       exists a, cache_index self' !! id = Some (a, a + (e - s)) /\
                 0 <= a /\ a + (e - s) <= Z.of_nat (length buf') /\
                 Py.slice buf' a (a + (e - s))
                 = Py.slice (ds_tokens (dataset self)) s e).
Proof.
  intros Hwf Hv. rewrite prefetch_unfold.
  rewrite (prefetch_total_ok _ _ _ (valid_ids_sort _ _ Hv)).
  rewrite Z.add_0_l, total_len_sort.
  pose proof (total_len_nonneg (dataset self) _ ids Hwf) as Htot.
  destruct (np_empty_ok junk _ Htot) as (buf & -> & Hbuf).
  destruct (prefetch_fill_ok (merge_sort Z.le ids) 0 (set_cache buf self) buf)
    as (self' & buf' & Hrun & Hcfg & Hc' & Hlen' & _ & Hother & Hentries);
    [done|done|by apply valid_ids_sort|lia|simpl; rewrite total_len_sort; lia|].
  simpl in Hentries. rewrite total_len_sort in Hentries.
  exists self', buf'. split; [done|]. split.
  { apply (same_config_trans _ (set_cache buf self)); [by repeat split|done]. }
  split; [done|]. split; [lia|]. split.
  { intros id Hid. rewrite Hother by (by rewrite elem_of_sort). done. }
  intros id s e Hin Hid.
  destruct (Hentries id s e) as (a & Ha & Ha0 & Hbound & Hcontent);
    [by rewrite elem_of_sort|done|].
  destruct (wf_blocks_getitem _ _ _ _ _ Hwf Hid) as [Hse He].
  exists a. split; [done|]. split; [lia|]. split; [lia|].
  rewrite !slice_in by lia.
  replace (a + (e - s) - a) with (e - s) by lia. done.
Qed.

(** ** [__getitem__] *)

Lemma getitem_hit (self : TokenBlockDataset) (index s e : Z) (buf : list Z) :
  cache_index self !! index = Some (s, e) -> cache self = Some buf ->
  exists x, getitem self index = Ok x /\ target x = Py.slice buf s e.
Proof.
  intros Hi Hc. unfold getitem. rewrite Hi, Hc. simpl.
  destruct (include_targets self); [|eauto].
  destruct (s =? 0); eauto.
Qed.

Lemma getitem_miss (self : TokenBlockDataset) (index : Z) :
  cache_index self !! index = None -> getitem self index = Raise KeyError.
Proof. intros Hi. unfold getitem. by rewrite Hi. Qed.

(** ** What [prefetch] does to the index, whatever happens *)

Lemma fill_index_other (bl : list block) (ids : list Z) (start : Z)
    (index : gmap Z (Z * Z)) (id : Z) :
  id ∉ ids -> fill_index bl ids start index !! id = index !! id.
Proof.
  revert start index. induction ids as [|idx rest IH]; intros start index Hid; [done|].
  apply not_elem_of_cons in Hid as [Hne Hid]. simpl.
  destruct (Py.getitem bl idx) as [[s e]|]; [|done].
  rewrite IH by done. by rewrite lookup_insert_ne.
Qed.

Lemma fill_index_keeps (bl : list block) (ids : list Z) (start : Z)
    (index : gmap Z (Z * Z)) (id : Z) :
  is_Some (index !! id) -> is_Some (fill_index bl ids start index !! id).
Proof.
  revert start index. induction ids as [|idx rest IH]; intros start index Hid; [done|].
  simpl. destruct (Py.getitem bl idx) as [[s e]|]; [|done].
  apply IH. destruct (decide (idx = id)) as [->|Hne].
  - rewrite lookup_insert_eq. eauto.
  - by rewrite lookup_insert_ne.
Qed.

Lemma fill_index_lookup_split (bl : list block) (l1 l2 : list Z) (id : Z)
    (start s e : Z) (m : gmap Z (Z * Z)) :
  valid_ids bl l1 -> id ∉ l2 -> Py.getitem bl id = Ok (s, e) ->
  fill_index bl (l1 ++ id :: l2) start m !! id
  = Some (start + Py.sum (map (block_len bl) l1),
          start + Py.sum (map (block_len bl) l1) + e - s).
Proof.
  intros Hv Hnin Hid. revert start m.
  induction Hv as [|id0 rest [[s0 e0] Hid0] Hv IH]; intros start m.
  - simpl. rewrite Hid, fill_index_other by done.
    rewrite lookup_insert_eq, sum_nil, Z.add_0_r. done.
  - assert (block_len bl id0 = e0 - s0) as Hlen0.
    { unfold block_len. by rewrite Hid0. }
    simpl. rewrite Hid0, IH, sum_cons, Hlen0. rewrite !Z.add_assoc. done.
Qed.

(** The second loop, stopped or not: the object is the one a run over the
    ids already read leaves, and nothing is rolled back. *)
Lemma prefetch_fill_outcome (ids : list Z) (start : Z) (self : TokenBlockDataset)
    (r : result unit) (self' : TokenBlockDataset) :
  prefetch_fill ids start self = (r, self') ->
  exists done rest,
    ids = done ++ rest /\
    (r = Ok tt -> rest = []) /\
    same_config self self' /\
    cache_index self' = fill_index (slice_indices self) done start (cache_index self) /\
    valid_ids (slice_indices self) done /\
    (forall buf, cache self = Some buf ->
       exists buf', cache self' = Some buf' /\ length buf' = length buf) /\
    (forall x, r = Raise x ->
       exists idx rest' start',
         rest = idx :: rest' /\
         prefetch_fill rest start' self' = (Raise x, self')).
Proof.
  revert start self. induction ids as [|idx ids IH]; intros start self Hrun.
  { injection Hrun as <- <-. exists [], []. repeat split; eauto; try constructor; done. }
  pose proof Hrun as Hrun0.
  rewrite prefetch_fill_cons in Hrun.
  assert (forall x, r = Raise x -> self' = self ->
          exists done rest,
            idx :: ids = done ++ rest /\ (r = Ok tt -> rest = []) /\
            same_config self self' /\
            cache_index self' = fill_index (slice_indices self) done start (cache_index self) /\
            valid_ids (slice_indices self) done /\
            (forall buf, cache self = Some buf ->
               exists buf', cache self' = Some buf' /\ length buf' = length buf) /\
            (forall x, r = Raise x ->
               exists idx' rest' start',
                 rest = idx' :: rest' /\
                 prefetch_fill rest start' self' = (Raise x, self'))) as Hstop.
  { intros x -> ->. exists [], (idx :: ids).
    split; [done|]. split; [done|]. split; [apply same_config_refl|].
    split; [done|]. split; [constructor|]. split; [eauto|].
    intros y [= <-]. by exists idx, ids, start. }
  destruct (Py.getitem _ _) as [[s e]|x] eqn:Hidx;
    [|injection Hrun as <- <-; by apply (Hstop x)].
  destruct (cache self) as [buf|] eqn:Hc;
    [|injection Hrun as <- <-; by apply (Hstop AttributeError)].
  cbv zeta in Hrun.
  destruct (read_into _ _ _) as [data|x] eqn:Hread;
    [|injection Hrun as <- <-; by apply (Hstop x)].
  clear Hstop.
  destruct (IH _ _ Hrun) as (done & rest & -> & Hok & Hcfg & Hidx' & Hv & Hbuf & Hraise).
  simpl in Hidx', Hv.
  exists (idx :: done), rest. split; [done|]. split; [done|]. split.
  { eapply same_config_trans; [|exact Hcfg]. by repeat split. }
  split; [simpl; by rewrite Hidx|]. split; [constructor; eauto|]. split; [|done].
  intros buf0 [= <-].
  destruct (Hbuf _ eq_refl) as (buf' & Hc' & Hlen). exists buf'. split; [done|].
  rewrite Hlen. unfold read_into in Hread.
  destruct (andb _ _) eqn:Hb; [|done]. injection Hread as <-.
  apply andb_true_iff in Hb as [Hb1 Hb2]. apply Z.leb_le in Hb1, Hb2.
  unfold write_at. rewrite !length_app, !length_take, !length_drop.
  unfold Py.slice_bound in *. lia.
Qed.

(** ** Order of the blocks of a table *)

Lemma chain_ordered (a : Z) (bl : list block) : chain a bl -> ordered bl.
Proof.
  intros Hc i j s e s' e' Hij Hi Hj.
  destruct (chain_lookup _ _ _ _ _ Hc Hi) as (_ & Hlt & Hd).
  assert (drop (S i) bl !! (j - S i)%nat = Some (s', e')) as Hj'.
  { rewrite lookup_drop. by replace (S i + (j - S i))%nat with j by lia. }
  destruct (chain_lookup _ _ _ _ _ Hd Hj') as (? & _ & _). lia.
Qed.

Lemma none_blocks_ordered (block_size N L : Z) :
  0 < block_size -> ordered (map (block_at block_size N) (Py.range L)).
Proof.
  intros Hb i j s e s' e' Hij Hi Hj.
  destruct (block_at_lookup _ _ _ _ _ _ Hi) as (-> & -> & _).
  destruct (block_at_lookup _ _ _ _ _ _ Hj) as (-> & _ & _).
  nia.
Qed.

(** ** Tables built by the constructor lie inside the stream *)

Lemma tiles_wf (ds : TokenStream) (bl : list block) (N : Z) :
  tiles 0 bl N -> N <= Z.of_nat (length (ds_tokens ds)) -> wf_blocks ds bl.
Proof.
  intros Ht HN. apply Forall_forall. intros [s e] Hin.
  apply list_elem_of_lookup in Hin as [i Hi].
  destruct (tiles_lookup _ _ _ _ _ _ Ht Hi) as (? & ? & ? & _). simpl. lia.
Qed.

Lemma eos_blocks_wf (ds : TokenStream) (szs : list Z) :
  Forall (fun x => 0 <= x) szs ->
  Py.sum szs <= Z.of_nat (length (ds_tokens ds)) ->
  wf_blocks ds (eos_blocks szs).
Proof.
  intros Hpos HN. apply Forall_forall. intros [s e] Hin.
  rewrite eos_blocks_from in Hin.
  destruct (eos_from_elem _ _ _ _ Hpos Hin) as (j & sz & Hj & Hsz & -> & ->).
  pose proof (prefix_S _ _ _ Hj) as HS.
  pose proof (lookup_lt_Some _ _ _ Hj) as Hlt.
  pose proof (prefix_mono szs 0 j Hpos ltac:(lia)) as H0. rewrite prefix_0 in H0.
  pose proof (prefix_mono szs (S j) (length szs) Hpos ltac:(lia)) as H1.
  rewrite (prefix_all szs (length szs)) in H1 by lia.
  assert (0 <= sz) by (eapply (proj1 (Forall_lookup _ _) Hpos); eauto).
  simpl. lia.
Qed.

Lemma build_blocks_wf (ds : TokenStream) (block_size : Z)
    (break_mode : option string) (bl : list block) :
  Forall (fun x => 0 <= x) (ds_sizes ds) ->
  Py.sum (ds_sizes ds) <= Z.of_nat (length (ds_tokens ds)) ->
  Py.sum (ds_sizes ds) < 2 ^ 53 -> 0 < block_size < 2 ^ 53 ->
  build_blocks (ds_sizes ds) block_size break_mode = Ok bl ->
  wf_blocks ds bl.
Proof.
  intros Hpos HN H53 Hb Hbl.
  pose proof (sum_nonneg _ Hpos) as H0.
  assert (none_blocks (ds_sizes ds) block_size = Ok bl -> wf_blocks ds bl) as Hnone.
  { rewrite none_blocks_exact by lia. intros [= <-].
    eapply tiles_wf; [apply exact_blocks_tile; lia|done]. }
  unfold build_blocks in Hbl. destruct break_mode as [mode|]; [|auto].
  destruct (String.eqb mode "none"); [auto|].
  destruct (String.eqb mode "complete").
  - destruct (complete_blocks_spec _ block_size Hpos ltac:(lia)) as (bl' & Hc & Ht & _).
    rewrite Hc in Hbl. injection Hbl as <-. by eapply tiles_wf.
  - destruct (String.eqb mode "eos"); [|done].
    injection Hbl as <-. by apply eos_blocks_wf.
Qed.

(** ** Exceptions of [prefetch] *)

Lemma getitem_raise {A} (l : list A) (i : Z) (x : exn) :
  Py.getitem l i = Raise x -> x = IndexError.
Proof.
  unfold Py.getitem. destruct (andb _ _); [|congruence].
  destruct (l !! _); congruence.
Qed.



(** Whatever its outcome, [prefetch] removes no entry of the index. *)
Lemma prefetch_keeps_entries (junk : nat -> Z) (ids : list Z)
    (self self' : TokenBlockDataset) (r : result unit) (id : Z) :
  prefetch junk ids self = (r, self') ->
  is_Some (cache_index self !! id) -> is_Some (cache_index self' !! id).
Proof.
  rewrite prefetch_unfold. intros Hrun Hid.
  pose proof (prefetch_total_self (merge_sort Z.le ids) 0 self) as Hself.
  destruct (prefetch_total _ _ _) as [[total|x] self1]; simpl in Hself; subst self1;
    [|by injection Hrun as _ <-].
  destruct (np_empty junk total) as [buf|x]; [|by injection Hrun as _ <-].
  destruct (prefetch_fill_outcome _ _ _ _ _ Hrun) as (done & rest & _ & _ & _ & -> & _).
  by apply fill_index_keeps.
Qed.

(** ** The shifted views of [__getitem__] *)

Section Views.
Variable self : TokenBlockDataset.
Variable buf : list Z.
Variables index s e : Z.
Hypothesis entry : cache_index self !! index = Some (s, e).
Hypothesis buffer : cache self = Some buf.
Hypothesis with_targets : include_targets self = true.
Hypothesis in_buffer : 0 <= s < e /\ e <= Z.of_nat (length buf).

Lemma getitem_triple :
  getitem self index =
    Ok (Triple
          (if s =? 0 then [eos self] ++ Py.slice buf 0 (e - 1)
           else Py.slice buf (s - 1) (e - 1))
          (Py.slice buf s e)
          (if s =? 0 then [pad self; eos self] ++ Py.slice buf 0 (e - 2)
           else if s =? 1 then [eos self] ++ Py.slice buf 0 (e - 2)
           else Py.slice buf (s - 2) (e - 2))).
Proof.
  unfold getitem. rewrite entry, buffer, with_targets. simpl.
  by destruct (s =? 0).
Qed.

Lemma item_lookup (k : nat) :
  Z.of_nat k < e - s ->
  Py.slice buf s e !! k = buf !! (Z.to_nat s + k)%nat.
Proof. intros Hk. apply slice_in_lookup; lia. Qed.

(** [source]: one token earlier, [eos] in front of a block at offset 0 *)
Lemma source_view (source : list Z) :
  source = (if s =? 0 then [eos self] ++ Py.slice buf 0 (e - 1)
            else Py.slice buf (s - 1) (e - 1)) ->
  Z.of_nat (length source) = e - s /\
  (s = 0 -> source !! 0%nat = Some (eos self)) /\
  (0 < s -> source !! 0%nat = buf !! Z.to_nat (s - 1)) /\
  (forall k, Z.of_nat (S k) < e - s -> source !! S k = Py.slice buf s e !! k).
Proof.
  intros ->. destruct (s =? 0) eqn:Hs.
  - apply Z.eqb_eq in Hs. split; [|split; [done|split; [lia|]]].
    + rewrite length_app. simpl length.
      pose proof (slice_in_length buf 0 (e - 1) ltac:(lia) ltac:(lia)). lia.
    + intros k Hk. simpl. rewrite item_lookup by lia.
      rewrite slice_in_lookup by lia. f_equal. lia.
  - apply Z.eqb_neq in Hs. split; [|split; [lia|split]].
    + pose proof (slice_in_length buf (s - 1) (e - 1) ltac:(lia) ltac:(lia)). lia.
    + intros _. rewrite slice_in_lookup by lia. f_equal. lia.
    + intros k Hk. rewrite item_lookup by lia.
      rewrite slice_in_lookup by lia. f_equal. lia.
Qed.

(** [past_target]: two tokens earlier, [pad] and [eos] in front of a block at
    offset 0, [eos] in front of a block at offset 1; the block at offset 0
    must hold two tokens at least *)
Lemma past_target_view (past_target : list Z) :
  past_target = (if s =? 0 then [pad self; eos self] ++ Py.slice buf 0 (e - 2)
                 else if s =? 1 then [eos self] ++ Py.slice buf 0 (e - 2)
                 else Py.slice buf (s - 2) (e - 2)) ->
  (s = 0 -> 2 <= e) ->
  Z.of_nat (length past_target) = e - s /\
  (s = 0 -> past_target !! 0%nat = Some (pad self) /\
            past_target !! 1%nat = Some (eos self)) /\
  (s = 1 -> past_target !! 0%nat = Some (eos self) /\
            past_target = [eos self] ++ Py.slice buf 0 (e - 2)) /\
  (2 <= s -> past_target = Py.slice buf (s - 2) (e - 2)) /\
  (forall k, Z.of_nat (S (S k)) < e - s ->
     past_target !! S (S k) = Py.slice buf s e !! k).
Proof.
  intros -> He. destruct (s =? 0) eqn:Hs; [|destruct (s =? 1) eqn:Hs1].
  - apply Z.eqb_eq in Hs. specialize (He Hs).
    split; [|split; [done|split; [lia|split; [lia|]]]].
    + rewrite length_app. simpl length.
      pose proof (slice_in_length buf 0 (e - 2) ltac:(lia) ltac:(lia)). lia.
    + intros k Hk. simpl. rewrite item_lookup by lia.
      rewrite slice_in_lookup by lia. f_equal. lia.
  - apply Z.eqb_eq in Hs1.
    split; [|split; [lia|split; [done|split; [lia|]]]].
    + rewrite length_app. simpl length.
      pose proof (slice_in_length buf 0 (e - 2) ltac:(lia) ltac:(lia)). lia.
    + intros k Hk. simpl. rewrite item_lookup by lia.
      rewrite slice_in_lookup by lia. f_equal. lia.
  - apply Z.eqb_neq in Hs, Hs1.
    split; [|split; [lia|split; [lia|split; [done|]]]].
    + pose proof (slice_in_length buf (s - 2) (e - 2) ltac:(lia) ltac:(lia)). lia.
    + intros k Hk. rewrite item_lookup by lia.
      rewrite slice_in_lookup by lia. f_equal. lia.
Qed.

(** A one-token block at offset 0: [self.cache[0:e - 2]] is
    [self.cache[0:-1]], the whole buffer but its last cell. *)
Lemma past_target_short :
  s = 0 -> e = 1 ->
  exists source item,
    getitem self index
    = Ok (Triple source item
            ([pad self; eos self] ++ take (length buf - 1) buf)).
Proof.
  intros Hs He. rewrite getitem_triple.
  rewrite (proj2 (Z.eqb_eq s 0) Hs). do 2 eexists. do 3 f_equal.
  unfold Py.slice. rewrite (slice_bound_in _ 0) by lia.
  assert (Py.slice_bound (length buf) (e - 2) = (length buf - 1)%nat) as ->.
  { unfold Py.slice_bound. rewrite (proj2 (Z.ltb_lt (e - 2) 0)) by lia. lia. }
  simpl. rewrite drop_0. f_equal. lia.
Qed.
End Views.

(** ** A [prefetch] stopped by a read out of the stream *)










(** * The claims *)

(** ** BlockIndexer *)

(** C10: the accumulation loop of break_mode ['complete'] terminates for every
    list of sizes and every block size (in particular for non-negative sizes
    and a positive block size): an iteration either advances the unit cursor,
    or emits a block and resets the accumulator to zero, and then the next
    iteration advances the cursor; the loop leaves its guard after at most
    twice as many iterations as there are units, whatever fuel beyond that
    the model is given. *)
Theorem complete_loop_terminates (szs : list Z) (block_size : Z) :
  (forall st,
     (sz_idx (complete_body szs block_size st) = S (sz_idx st) /\
      emitted (complete_body szs block_size st) = emitted st)
     \/
     (sz_idx (complete_body szs block_size st) = sz_idx st /\
      curr_size (complete_body szs block_size st) = 0 /\
      emitted (complete_body szs block_size st)
      = emitted st ++ [(tok_idx st, tok_idx st + curr_size st)] /\
      sz_idx (complete_body szs block_size (complete_body szs block_size st))
      = S (sz_idx st)))
  /\
  exists n st,
    (n <= 2 * length szs)%nat /\
    complete_guard szs st = false /\
    forall fuel, (2 * length szs <= fuel)%nat ->
      complete_while szs block_size fuel complete_init = Some (n, st).
Proof.
  split.
  - intros st. destruct (complete_body_cases szs block_size st)
      as [(H1 & H2 & _)|(_ & H1 & H2 & _ & H3 & H4)]; [left|right]; auto.
  - destruct (complete_while_terminates szs block_size (2 * length szs) complete_init)
      as (n & st & Hw & Hn & Hex).
    { unfold complete_measure. simpl. lia. }
    exists n, st. unfold complete_measure in Hn. simpl in Hn.
    split; [lia|]. split; [done|].
    intros fuel Hfuel. by apply (complete_while_more_fuel _ _ _ _ _ _ Hw).
Qed.

(** C7, as the code has it: for non-negative sizes and a positive block size,
    break_mode ['complete'] returns a table in which every unit of non-zero
    size lies inside exactly one block (so no such unit is split), the blocks
    follow one another from position 0 to the end of the stream (so a
    remainder that holds tokens is emitted as the final block), and the range
    of a block longer than [block_size] is the range of one unit whose own
    size exceeds [block_size]; sizes [3,3,3] with block size 4 give
    [(0,3),(3,6),(6,9)] and sizes [5] with block size 3 give [(0,5)]. *)
Theorem complete_units_blocks (szs : list Z) (block_size : Z) :
  Forall (fun x => 0 <= x) szs -> 0 < block_size ->
  (exists bl,
     complete_blocks szs block_size = Ok bl /\
     (forall j sz, szs !! j = Some sz -> 0 < sz ->
        exists i s e,
          bl !! i = Some (s, e) /\
          s <= prefix szs j /\ prefix szs j + sz <= e /\
          forall i' s' e', bl !! i' = Some (s', e') ->
            s' <= prefix szs j -> prefix szs j + sz <= e' -> i' = i) /\
     tiles 0 bl (Py.sum szs) /\
     (0 < Py.sum szs -> exists s, last bl = Some (s, Py.sum szs)) /\
     (forall s e, (s, e) ∈ bl -> block_size < e - s ->
        exists j, szs !! j = Some (e - s) /\ prefix szs j = s /\
                  block_size < e - s))
  /\ complete_blocks [3; 3; 3] 4 = Ok [(0, 3); (3, 6); (6, 9)]
  /\ complete_blocks [5] 3 = Ok [(0, 5)].
Proof.
  intros Hpos Hbs. split; [|split; reflexivity].
  destruct (complete_blocks_spec szs block_size Hpos Hbs) as (bl & Hbl & Ht & Hends & Hbig).
  exists bl. split; [done|]. split; [|split; [done|split]].
  - intros j sz Hj Hsz. by apply unit_in_one_block.
  - intros HN. by apply (tiles_last 0).
  - intros s e Hin Hlt. destruct (Hbig s e Hin Hlt) as (j & Hj & Hp). eauto.
Qed.

Lemma complete_units_blocks_witness :
  exists bl, complete_blocks [3; 0; 2; 4] 4 = Ok bl /\ tiles 0 bl 9.
Proof.
  destruct (complete_units_blocks [3; 0; 2; 4] 4) as ((bl & Hbl & _ & Ht & _) & _).
  - repeat constructor; lia.
  - lia.
  - exists bl. split; [exact Hbl|exact Ht].
Defined.

(** C7 as stated fails on units of size zero.  The single unit of sizes [0]
    with block size 1 is in no block: the table is empty.  With sizes [0,5]
    and block size 4 the block (0,5) is longer than the block size and holds
    two units, the empty one and the one of size 5. *)
Lemma zero_size_units_escape :
  complete_blocks [0] 1 = Ok [] /\
  ~ every_unit_in_one_block [0] [] /\
  complete_blocks [0; 5] 4 = Ok [(0, 5)] /\
  unit_in_block [0; 5] 0 (0, 5) /\
  unit_in_block [0; 5] 1 (0, 5).
Proof.
  split; [reflexivity|]. split.
  - intros H. destruct (H 0%nat) as (i & b & Hb & _); [simpl; lia|].
    rewrite lookup_nil in Hb. discriminate.
  - split; [reflexivity|].
    split; (split; vm_compute; intros H; discriminate H).
Qed.

(** C8, as the code has it: for non-negative sizes, break_mode ['eos'] gives
    as many blocks as there are units of non-zero size; the unit of non-zero
    size [sz] that starts at cursor position [c] gives the block [c, c + sz),
    in the order of the units; every block comes from such a unit; dropping
    the zero-size units from the sizes leaves the table unchanged; sizes
    [0,2,0,3] give [(0,2),(2,5)]. *)
Theorem unit_per_block (szs : list Z) :
  Forall (fun x => 0 <= x) szs ->
  length (eos_blocks szs) = length (filter nonzero szs) /\
  (forall j sz, szs !! j = Some sz -> sz <> 0 ->
     eos_blocks szs !! length (filter nonzero (take j szs))
     = Some (prefix szs j, prefix szs j + sz)) /\
  (forall s e, (s, e) ∈ eos_blocks szs ->
     exists j sz, szs !! j = Some sz /\ sz <> 0 /\ s = prefix szs j /\ e = s + sz) /\
  eos_blocks (filter nonzero szs) = eos_blocks szs /\
  eos_blocks [0; 2; 0; 3] = [(0, 2); (2, 5)].
Proof.
  intros Hpos. rewrite !eos_blocks_from.
  split; [by apply eos_from_length|]. split; [|split; [|split; [|reflexivity]]].
  - intros j sz Hj Hsz. rewrite (eos_from_lookup 0 _ _ _ Hpos Hj Hsz).
    by rewrite Z.add_0_l.
  - intros s e Hin.
    destruct (eos_from_elem _ _ _ _ Hpos Hin) as (j & sz & Hj & Hsz & Hs & He).
    exists j, sz. rewrite Z.add_0_l in Hs. auto.
  - by apply eos_from_filter.
Qed.

Lemma unit_per_block_witness :
  length (eos_blocks [0; 2; 0; 3]) = length (filter nonzero [0; 2; 0; 3]).
Proof.
  apply (unit_per_block [0; 2; 0; 3]). repeat constructor; lia.
Defined.

(** C8 as stated fails on its example: sizes [0,2,0,3] do not give
    [(2,4),(4,7)]. *)
Lemma unit_per_block_example_wrong :
  eos_blocks [0; 2; 0; 3] <> [(2, 4); (4, 7)].
Proof. vm_compute. discriminate. Qed.

(** Break_mode ['none'] when the token count and the block size are below
    [2 ^ 53]: [ceil (N / block_size)] blocks, block [i] being
    [i * block_size, min ((i + 1) * block_size, N)); their lengths add up to
    [N] and every block but the last has length [block_size]. *)
Lemma none_blocks_exact_spec (szs : list Z) (block_size : Z) :
  Forall (fun x => 0 <= x) szs ->
  Py.sum szs < 2 ^ 53 -> 0 < block_size < 2 ^ 53 ->
  exists bl,
    none_blocks szs block_size = Ok bl /\
    Z.of_nat (length bl) = ceil_div (Py.sum szs) block_size /\
    (forall i, (i < length bl)%nat ->
       bl !! i = Some (Z.of_nat i * block_size,
                       Z.min ((Z.of_nat i + 1) * block_size) (Py.sum szs))) /\
    Py.sum (map (fun '(s, e) => e - s) bl) = Py.sum szs /\
    (forall i s e, (S i < length bl)%nat -> bl !! i = Some (s, e) ->
       e - s = block_size).
Proof.
  intros Hpos H53 Hb. pose proof (sum_nonneg _ Hpos) as H0.
  set (N := Py.sum szs) in *.
  exists (map (block_at block_size N) (Py.range (ceil_div N block_size))).
  pose proof (ceil_div_spec N block_size ltac:(lia)) as Hk.
  assert (0 <= ceil_div N block_size) as Hk0 by nia.
  split; [apply none_blocks_exact; lia|].
  rewrite length_map, range_length. split; [lia|]. split; [|split].
  - intros i Hi. rewrite list_lookup_fmap, range_lookup by done. simpl.
    unfold block_at. do 2 f_equal. lia.
  - rewrite (tiles_lengths 0 N); [lia|]. apply exact_blocks_tile; lia.
  - intros i s e Hi Hlk.
    destruct (block_at_lookup _ _ _ _ _ _ Hlk) as (-> & -> & _). nia.
Qed.

(** C6 (code defect): [math.ceil(total_size / block_size)] goes through a
    float.  With 2^53 + 1 tokens and a block size of 2^53 the quotient rounds
    to 1.0: the table has one block, [(0, 2^53)], where two blocks are
    expected, and the block lengths add up to 2^53, one token short. *)
Theorem none_blocks_float_rounding :
  none_blocks [2 ^ 53 + 1] (2 ^ 53) = Ok [(0, 2 ^ 53)] /\
  ceil_div (Py.sum [2 ^ 53 + 1]) (2 ^ 53) = 2 /\
  Py.sum (map (fun '(s, e) => e - s) [(0, 2 ^ 53)]) <> Py.sum [2 ^ 53 + 1].
Proof. split; [|split]; vm_compute; congruence. Qed.

(** C9: for non-negative sizes, a positive block size and each of the three
    break modes, every table the constructor builds is strictly ordered by
    start, its blocks do not overlap ([end i <= start j] for [i < j], so for
    consecutive blocks), and the exposed sizes are [end - start]; the
    constructor does build a table, except that break_mode ['none'] raises
    [OverflowError] when the quotient does not fit a float, which cannot
    happen below [2 ^ 53]. *)
Theorem block_table_invariant (ds : TokenStream) (block_size pad_ eos_ : Z)
    (break_mode : option string) (include_targets_ : bool) :
  Forall (fun x => 0 <= x) (ds_sizes ds) -> 0 < block_size ->
  supported break_mode ->
  (forall self,
     init ds block_size pad_ eos_ break_mode include_targets_ = Ok self ->
     ordered (slice_indices self) /\
     length (sizes self) = length (slice_indices self) /\
     (forall i s e, slice_indices self !! i = Some (s, e) ->
        sizes self !! i = Some (e - s)))
  /\
  ((exists self, init ds block_size pad_ eos_ break_mode include_targets_ = Ok self)
   \/
   ((break_mode = None \/ break_mode = Some "none"%string) /\
    ~ (Py.sum (ds_sizes ds) < 2 ^ 53 /\ block_size < 2 ^ 53) /\
    init ds block_size pad_ eos_ break_mode include_targets_ = Raise OverflowError)).
Proof.
  intros Hpos Hbs Hmode.
  assert (forall bl, build_blocks (ds_sizes ds) block_size break_mode = Ok bl ->
                     ordered bl) as Hord.
  { intros bl Hbl.
    assert (none_blocks (ds_sizes ds) block_size = Ok bl -> ordered bl) as Hnone.
    { destruct (none_blocks_shape (ds_sizes ds) block_size) as [[L HL]|Hov];
        [lia|rewrite HL|by rewrite Hov].
      intros [= <-]. by apply none_blocks_ordered. }
    destruct Hmode as [-> | [-> | [-> | ->]]]; simpl in Hbl; auto.
    - destruct (complete_blocks_spec _ _ Hpos Hbs) as (bl' & Hc & Ht & _).
      rewrite Hc in Hbl. injection Hbl as <-.
      eapply chain_ordered, tiles_chain, Ht.
    - injection Hbl as <-. rewrite eos_blocks_from.
      eapply chain_ordered, eos_from_chain, Hpos. }
  assert ((exists bl, build_blocks (ds_sizes ds) block_size break_mode = Ok bl)
          \/ ((break_mode = None \/ break_mode = Some "none"%string) /\
              ~ (Py.sum (ds_sizes ds) < 2 ^ 53 /\ block_size < 2 ^ 53) /\
              build_blocks (ds_sizes ds) block_size break_mode = Raise OverflowError))
    as Hbuild.
  { assert ((exists bl, none_blocks (ds_sizes ds) block_size = Ok bl)
            \/ (~ (Py.sum (ds_sizes ds) < 2 ^ 53 /\ block_size < 2 ^ 53) /\
                none_blocks (ds_sizes ds) block_size = Raise OverflowError)) as Hnone.
    { destruct (none_blocks_shape (ds_sizes ds) block_size) as [[L HL]|Hov];
        [lia|eauto|].
      right. split; [|done]. intros [H1 H2].
      pose proof (sum_nonneg _ Hpos).
      rewrite none_blocks_exact in Hov by lia. done. }
    destruct Hmode as [-> | [-> | [-> | ->]]]; simpl.
    - destruct Hnone as [?|[? ?]]; auto.
    - destruct Hnone as [?|[? ?]]; auto.
    - destruct (complete_blocks_spec _ _ Hpos Hbs) as (bl' & Hc & _). eauto.
    - eauto. }
  split.
  - intros self Hinit. unfold init in Hinit.
    destruct (build_blocks _ _ _) as [bl|] eqn:Hbl; [|done].
    injection Hinit as <-. simpl. split; [auto|]. split.
    + by rewrite length_map.
    + intros i s e Hi. by rewrite list_lookup_fmap, Hi.
  - unfold init. destruct Hbuild as [[bl ->]|(Hm & Hbig & ->)]; [left|right].
    + eexists. reflexivity.
    + auto.
Qed.

Lemma block_table_invariant_witness :
  exists self,
    init {| ds_sizes := [3; 3; 3]; ds_tokens := [1; 2; 3; 4; 5; 6; 7; 8; 9] |}
         4 1 2 (Some "complete"%string) true = Ok self /\
    ordered (slice_indices self).
Proof.
  destruct (block_table_invariant
              {| ds_sizes := [3; 3; 3]; ds_tokens := [1; 2; 3; 4; 5; 6; 7; 8; 9] |}
              4 1 2 (Some "complete"%string) true) as [Hinv _].
  - repeat constructor; lia.
  - lia.
  - right. right. left. reflexivity.
  - eexists. split; [reflexivity|].
    apply Hinv. reflexivity.
Defined.

(** ** BlockCache and SampleProducer *)


(** C1 (code defect): [prefetch] never clears [cache_index].  Over blocks
    [(0,2),(2,4)] of the stream [10,11,12,13], after [prefetch([0])] and then
    [prefetch([1])] the id 0 is still a key of the index, with the offsets it
    had in the buffer of the first call, and [get(0)] returns the tokens of
    block 1 where [KeyError] is expected. *)
Theorem prefetch_keeps_stale_ids :
  exists self0 self1 self2,
    init demo_stream 2 1 2 None false = Ok self0 /\
    slice_indices self0 = [(0, 2); (2, 4)] /\
    prefetch zeros [0] self0 = (Ok tt, self1) /\
    prefetch zeros [1] self1 = (Ok tt, self2) /\
    cache self2 = Some [12; 13] /\
    cache_index self2 !! 0 = Some (0, 2) /\
    getitem self2 0 = Ok (Item [12; 13]).
Proof.
  eexists _, _, _.
  split; [vm_compute; reflexivity|]. split; [reflexivity|].
  split; [vm_compute; reflexivity|]. split; [vm_compute; reflexivity|].
  split; [reflexivity|]. split; vm_compute; reflexivity.
Qed.

(** C2 as stated fails: requesting block 0 twice allocates room for two
    copies and reads the block twice. *)
Lemma duplicate_ids_two_copies :
  exists self0 self1,
    init demo_stream 2 1 2 None false = Ok self0 /\
    prefetch zeros [0; 0] self0 = (Ok tt, self1) /\
    cache self1 = Some [10; 11; 10; 11] /\
    ~ sized_for_distinct (slice_indices self0) [0; 0] self1.
Proof.
  eexists _, _.
  split; [vm_compute; reflexivity|]. split; [vm_compute; reflexivity|].
  split; [reflexivity|].
  intros (buf & Hbuf & Hlen). injection Hbuf as <-. vm_compute in Hlen. discriminate.
Qed.

(** C2, as the code has it: over a table that lies inside the stream and ids
    the table accepts, [prefetch] returns; the buffer it allocates has the
    summed length of the requested blocks, each counted as often as its id is
    requested; every requested id maps to one offset range of the buffer, of
    the length of its block, that holds the tokens of the block. *)
Theorem prefetch_counts_duplicates (junk : nat -> Z) (ids : list Z)
    (self : TokenBlockDataset) :
  wf_blocks (dataset self) (slice_indices self) ->
  valid_ids (slice_indices self) ids ->
  exists self' buf,
    prefetch junk ids self = (Ok tt, self') /\
    cache self' = Some buf /\
    Z.of_nat (length buf) = Py.sum (map (block_len (slice_indices self)) ids) /\
    forall id s e, id ∈ ids -> Py.getitem (slice_indices self) id = Ok (s, e) ->
      exists a, cache_index self' !! id = Some (a, a + (e - s)) /\
                0 <= a /\ a + (e - s) <= Z.of_nat (length buf) /\
                Py.slice buf a (a + (e - s))
                = Py.slice (ds_tokens (dataset self)) s e.
Proof.
  intros Hwf Hv.
  destruct (prefetch_ok junk ids self Hwf Hv)
    as (self' & buf & Hrun & _ & Hc & Hlen & _ & Hentries).
  exists self', buf. auto.
Qed.

Lemma prefetch_counts_duplicates_witness :
  exists self self' buf,
    init demo_stream 2 1 2 None false = Ok self /\
    prefetch zeros [1; 0; 1] self = (Ok tt, self') /\
    cache self' = Some buf /\ Z.of_nat (length buf) = 6.
Proof.
  eexists.
  destruct (prefetch_counts_duplicates zeros [1; 0; 1]
              {| dataset := demo_stream; pad := 1; eos := 2;
                 include_targets := false;
                 slice_indices := [(0, 2); (2, 4)]; sizes := [2; 2];
                 cache := None; cache_index := ∅ |})
    as (self' & buf & Hrun & Hc & Hlen & _).
  - solve_wf.
  - solve_valid.
  - exists self', buf. split; [reflexivity|]. split; [exact Hrun|].
    split; [exact Hc|exact Hlen].
Defined.

(** C5: over a table that lies inside the stream and ids the table accepts,
    [prefetch] returns, and then for every requested id [get] returns, with as
    target exactly the tokens [start(id), end(id)) of the stream, whatever
    other ids the call requested. *)
Theorem prefetch_get_roundtrip (junk : nat -> Z) (ids : list Z)
    (self : TokenBlockDataset) :
  wf_blocks (dataset self) (slice_indices self) ->
  valid_ids (slice_indices self) ids ->
  exists self',
    prefetch junk ids self = (Ok tt, self') /\
    forall id, id ∈ ids ->
      exists s e x,
        Py.getitem (slice_indices self) id = Ok (s, e) /\
        getitem self' id = Ok x /\
        target x = Py.slice (ds_tokens (dataset self)) s e.
Proof.
  intros Hwf Hv.
  destruct (prefetch_ok junk ids self Hwf Hv)
    as (self' & buf & Hrun & _ & Hc & _ & _ & Hentries).
  exists self'. split; [done|]. intros id Hin.
  destruct (proj1 (Forall_forall _ _) Hv id Hin) as [[s e] Hid].
  destruct (Hentries id s e Hin Hid) as (a & Ha & _ & _ & Hslice).
  destruct (getitem_hit self' id _ _ buf Ha Hc) as (x & Hx & Ht).
  exists s, e, x. rewrite Ht, Hslice. auto.
Qed.

Lemma prefetch_get_roundtrip_witness :
  exists self',
    prefetch zeros [1; 0]
      {| dataset := demo_stream; pad := 1; eos := 2; include_targets := true;
         slice_indices := [(0, 2); (2, 4)]; sizes := [2; 2];
         cache := None; cache_index := ∅ |} = (Ok tt, self') /\
    exists s e x,
      Py.getitem [(0, 2); (2, 4)] 1 = Ok (s, e) /\
      getitem self' 1 = Ok x /\
      target x = Py.slice [10; 11; 12; 13] s e.
Proof.
  destruct (prefetch_get_roundtrip zeros [1; 0]
              {| dataset := demo_stream; pad := 1; eos := 2;
                 include_targets := true;
                 slice_indices := [(0, 2); (2, 4)]; sizes := [2; 2];
                 cache := None; cache_index := ∅ |})
    as (self' & Hrun & Hget).
  - solve_wf.
  - solve_valid.
  - exists self'. split; [exact Hrun|]. apply (Hget 1).
    apply elem_of_cons. left. reflexivity.
Defined.




(** C4 (code defect): for a block of one token at buffer offset 0 the slice
    [self.cache[0:e - 2]] is [self.cache[0:-1]].  Over three one-token blocks
    of the stream [10,11,12], all prefetched, [get(0)] returns a source and a
    target of length 1 and a past target of length 4, made of [pad], [eos] and
    the buffer without its last token. *)
Theorem past_target_of_one_token_block :
  exists self0 self1,
    init word_stream 5 1 2 (Some "eos"%string) true = Ok self0 /\
    slice_indices self0 = [(0, 1); (1, 2); (2, 3)] /\
    prefetch zeros [0; 1; 2] self0 = (Ok tt, self1) /\
    cache_index self1 !! 0 = Some (0, 1) /\
    getitem self1 0 = Ok (Triple [2] [10] [1; 2; 10; 11]).
Proof.
  eexists _, _.
  split; [vm_compute; reflexivity|]. split; [reflexivity|].
  split; [vm_compute; reflexivity|]. split; vm_compute; reflexivity.
Qed.

(** * Further properties of the cache *)

(** ** The layout of the buffer *)

Lemma block_tokens_length (ds : TokenStream) (bl : list block) (idx : Z) :
  wf_blocks ds bl ->
  Z.of_nat (length (block_tokens ds bl idx)) = block_len bl idx.
Proof.
  intros Hwf. unfold block_tokens, block_len.
  destruct (Py.getitem bl idx) as [[s e]|] eqn:Hi; [|done].
  destruct (wf_blocks_getitem _ _ _ _ _ Hwf Hi).
  apply slice_in_length; lia.
Qed.

Lemma prefetch_fill_buffer (ids : list Z) (start : Z) (self self' : TokenBlockDataset)
    (buf : list Z) :
  cache self = Some buf ->
  wf_blocks (dataset self) (slice_indices self) ->
  valid_ids (slice_indices self) ids ->
  0 <= start ->
  start + Py.sum (map (block_len (slice_indices self)) ids) <= Z.of_nat (length buf) ->
  prefetch_fill ids start self = (Ok tt, self') ->
  cache self'
  = Some (take (Z.to_nat start) buf
          ++ concat (map (block_tokens (dataset self) (slice_indices self)) ids)
          ++ drop (Z.to_nat (start + Py.sum (map (block_len (slice_indices self)) ids))) buf)
  /\ cache_index self'
     = fill_index (slice_indices self) ids start (cache_index self).
Proof.
  revert start self buf.
  induction ids as [|id0 rest IH]; intros start self buf Hc Hwf Hv Hstart Hfit Hrun.
  { injection Hrun as <-. simpl. rewrite sum_nil, Z.add_0_r, take_drop. done. }
  apply Forall_cons in Hv as [[[s0 e0] Hid0] Hv].
  destruct (wf_blocks_getitem _ _ _ _ _ Hwf Hid0) as [Hse He].
  simpl in Hfit |- *. rewrite sum_cons in Hfit |- *.
  assert (block_len (slice_indices self) id0 = e0 - s0) as Hlen0.
  { unfold block_len. by rewrite Hid0. }
  assert (block_tokens (dataset self) (slice_indices self) id0
          = take (Z.to_nat (e0 - s0)) (drop (Z.to_nat s0) (ds_tokens (dataset self))))
    as Htok0.
  { unfold block_tokens. rewrite Hid0. apply slice_in; lia. }
  pose proof (total_len_nonneg (dataset self) _ rest Hwf) as Hrest.
  rewrite Hlen0 in Hfit |- *. rewrite Hid0, Htok0.
  rewrite prefetch_fill_cons, Hid0, Hc in Hrun. cbv zeta in Hrun.
  rewrite !slice_bound_in in Hrun by lia.
  replace (Z.to_nat (start + e0 - s0) - Z.to_nat start)%nat
    with (Z.to_nat (e0 - s0)) in Hrun by lia.
  destruct (read_into_ok (dataset self) s0 (Z.to_nat (e0 - s0))) as [Hread Hdata]; [lia..|].
  rewrite Hread in Hrun.
  set (data := take _ (drop (Z.to_nat s0) _)) in *.
  set (buf1 := write_at buf (Z.to_nat start) data) in *.
  assert (length buf1 = length buf) as Hlen1 by (apply write_at_length; lia).
  destruct (IH (start + (e0 - s0))
              (set_cache_index id0 (start, start + e0 - s0) (set_cache buf1 self))
              buf1) as [Hc' Hidx']; [done|done|done|lia|simpl; lia|done|].
  simpl in Hc', Hidx'. split; [|done].
  rewrite Hc'. f_equal.
  replace (Z.to_nat (start + (e0 - s0))) with (Z.to_nat start + length data)%nat by lia.
  unfold buf1 at 1. rewrite write_at_take_data by lia.
  unfold buf1. rewrite write_at_drop by lia.
  by rewrite <- !app_assoc, Z.add_assoc.
Qed.

(** After a call that returns, the buffer is the concatenation of the
    requested blocks in ascending order of their ids. *)
Lemma prefetch_layout (junk : nat -> Z) (ids : list Z) (self : TokenBlockDataset) :
  wf_blocks (dataset self) (slice_indices self) ->
  valid_ids (slice_indices self) ids ->
  exists self',
    prefetch junk ids self = (Ok tt, self') /\
    same_config self self' /\
    cache self'
    = Some (concat (map (block_tokens (dataset self) (slice_indices self))
                        (merge_sort Z.le ids))) /\
    cache_index self'
    = fill_index (slice_indices self) (merge_sort Z.le ids) 0 (cache_index self).
Proof.
  intros Hwf Hv.
  destruct (prefetch_ok junk ids self Hwf Hv) as (self' & buf' & Hrun & Hcfg & _).
  exists self'. split; [done|]. split; [done|].
  rewrite prefetch_unfold in Hrun.
  rewrite (prefetch_total_ok _ _ _ (valid_ids_sort _ _ Hv)) in Hrun.
  rewrite Z.add_0_l in Hrun.
  pose proof (total_len_nonneg (dataset self) _ (merge_sort Z.le ids) Hwf) as Htot.
  destruct (np_empty_ok junk _ Htot) as (buf & Hbuf & Hlen). rewrite Hbuf in Hrun.
  destruct (prefetch_fill_buffer (merge_sort Z.le ids) 0 (set_cache buf self) self' buf)
    as [Hc Hidx]; [done|done|by apply valid_ids_sort|lia|simpl; lia|done|].
  simpl in Hc, Hidx. split; [|done].
  rewrite Hc. rewrite Z.add_0_l, <- Hlen, Nat2Z.id, drop_all, app_nil_r. done.
Qed.

Lemma fill_index_lookup_in (bl : list block) (ids : list Z) (start : Z)
    (m m' : gmap Z (Z * Z)) (id : Z) :
  valid_ids bl ids -> id ∈ ids ->
  fill_index bl ids start m !! id = fill_index bl ids start m' !! id.
Proof.
  intros Hv. revert start m m'.
  induction Hv as [|id0 rest [[s e] Hid0] Hv IH]; intros start m m' Hin.
  { by apply elem_of_nil in Hin. }
  simpl. rewrite Hid0.
  destruct (decide (id ∈ rest)) as [Hr|Hr]; [by apply IH|].
  apply elem_of_cons in Hin as [->|Hin]; [|done].
  rewrite !fill_index_other by done. by rewrite !lookup_insert_eq.
Qed.

Lemma fill_index_idem (bl : list block) (ids : list Z) (start : Z)
    (m : gmap Z (Z * Z)) :
  valid_ids bl ids ->
  fill_index bl ids start (fill_index bl ids start m) = fill_index bl ids start m.
Proof.
  intros Hv. apply map_eq. intros id.
  destruct (decide (id ∈ ids)) as [Hin|Hin].
  - by apply fill_index_lookup_in.
  - by rewrite fill_index_other.
Qed.

Lemma dataset_eq (a b : TokenBlockDataset) :
  same_config a b -> cache b = cache a -> cache_index b = cache_index a -> b = a.
Proof.
  destruct a, b. simpl. intros (?&?&?&?&?&?) ? ?. simpl in *. congruence.
Qed.

Lemma getitem_out_of_range {A} (l : list A) (i : Z) :
  i < - Z.of_nat (length l) \/ Z.of_nat (length l) <= i ->
  Py.getitem l i = Raise IndexError.
Proof.
  intros Hi. unfold Py.getitem.
  destruct (i <? 0) eqn:Hneg.
  - apply Z.ltb_lt in Hneg.
    rewrite (proj2 (andb_false_iff _ _)); [done|].
    left. apply Z.leb_gt. lia.
  - apply Z.ltb_ge in Hneg.
    rewrite (proj2 (andb_false_iff _ _)); [done|].
    right. apply Z.ltb_ge. lia.
Qed.

Lemma getitem_in_range {A} (l : list A) (i : Z) :
  - Z.of_nat (length l) <= i < Z.of_nat (length l) ->
  exists x, Py.getitem l i = Ok x /\
            l !! Z.to_nat (if i <? 0 then i + Z.of_nat (length l) else i) = Some x.
Proof.
  intros Hi. unfold Py.getitem.
  set (j := if i <? 0 then i + Z.of_nat (length l) else i).
  assert (0 <= j < Z.of_nat (length l)) as Hj.
  { unfold j. destruct (i <? 0) eqn:Hneg; [apply Z.ltb_lt in Hneg|apply Z.ltb_ge in Hneg]; lia. }
  rewrite (proj2 (andb_true_iff _ _)) by (split; [apply Z.leb_le|apply Z.ltb_lt]; lia).
  destruct (lookup_lt_is_Some_2 l (Z.to_nat j)) as [x Hx]; [lia|].
  rewrite Hx. eauto.
Qed.

Lemma prefetch_total_bad (indices : list Z) (total_size : Z)
    (self : TokenBlockDataset) (id : Z) (x : exn) :
  id ∈ indices -> Py.getitem (slice_indices self) id = Raise x ->
  prefetch_total indices total_size self = (Raise IndexError, self).
Proof.
  revert total_size. induction indices as [|idx rest IH]; intros total_size Hin Hid.
  { by apply elem_of_nil in Hin. }
  rewrite prefetch_total_cons.
  destruct (Py.getitem (slice_indices self) idx) as [[s e]|y] eqn:Hidx.
  - apply elem_of_cons in Hin as [->|Hin]; [congruence|]. by apply IH.
  - by rewrite (getitem_raise _ _ _ Hidx).
Qed.

(** Whatever its outcome, [prefetch] leaves everything but the buffer and
    the index as it was. *)
Lemma prefetch_same_config (junk : nat -> Z) (ids : list Z)
    (self self' : TokenBlockDataset) (r : result unit) :
  prefetch junk ids self = (r, self') -> same_config self self'.
Proof.
  rewrite prefetch_unfold. intros Hrun.
  pose proof (prefetch_total_self (merge_sort Z.le ids) 0 self) as Hself.
  destruct (prefetch_total _ _ _) as [[total|x] self1]; simpl in Hself; subst self1;
    [|injection Hrun as _ <-; apply same_config_refl].
  destruct (np_empty junk total) as [buf|x];
    [|injection Hrun as _ <-; apply same_config_refl].
  destruct (prefetch_fill_outcome _ _ _ _ _ Hrun) as (done & rest & _ & _ & Hcfg & _).
  eapply same_config_trans; [|exact Hcfg]. by repeat split.
Qed.

(** No buffer, no entry: an index with a key comes with a buffer. *)
Lemma prefetch_keeps_buffer (junk : nat -> Z) (ids : list Z)
    (self self' : TokenBlockDataset) (r : result unit) :
  prefetch junk ids self = (r, self') ->
  (cache self = None -> cache_index self = ∅) ->
  (cache self' = None -> cache_index self' = ∅).
Proof.
  rewrite prefetch_unfold. intros Hrun Hinv.
  pose proof (prefetch_total_self (merge_sort Z.le ids) 0 self) as Hself.
  destruct (prefetch_total _ _ _) as [[total|x] self1]; simpl in Hself; subst self1;
    [|by injection Hrun as _ <-].
  destruct (np_empty junk total) as [buf|x]; [|by injection Hrun as _ <-].
  destruct (prefetch_fill_outcome _ _ _ _ _ Hrun)
    as (done & rest & _ & _ & _ & _ & _ & Hbuf & _).
  destruct (Hbuf buf eq_refl) as (buf' & -> & _). done.
Qed.

Lemma reachable_buffer (self0 self : TokenBlockDataset) :
  reachable self0 self ->
  (cache self0 = None -> cache_index self0 = ∅) ->
  (cache self = None -> cache_index self = ∅).
Proof.
  induction 1 as [|junk ids self self' r _ IH Hrun]; [done|].
  intros H0. eapply prefetch_keeps_buffer; eauto.
Qed.

Lemma reachable_config (self0 self : TokenBlockDataset) :
  reachable self0 self -> same_config self0 self.
Proof.
  induction 1 as [|junk ids self self' r _ IH Hrun]; [apply same_config_refl|].
  eapply same_config_trans; [exact IH|]. by eapply prefetch_same_config.
Qed.

(** ** Further properties: the cache *)

(** X1: over a table that lies inside the stream and ids the table accepts,
    [prefetch] returns and leaves as buffer exactly the requested blocks, laid
    out one after the other in ascending order of their ids, duplicates
    included; nothing of the uninitialised memory or of an earlier buffer is
    left, and the index is the previous one overwritten with the offsets of
    the requested ids. *)
Theorem prefetch_buffer_layout (junk : nat -> Z) (ids : list Z)
    (self : TokenBlockDataset) :
  wf_blocks (dataset self) (slice_indices self) ->
  valid_ids (slice_indices self) ids ->
  Sorted Z.le (merge_sort Z.le ids) /\ merge_sort Z.le ids ≡ₚ ids /\
  exists self',
    prefetch junk ids self = (Ok tt, self') /\
    cache self'
    = Some (concat (map (block_tokens (dataset self) (slice_indices self))
                        (merge_sort Z.le ids))) /\
    cache_index self'
    = fill_index (slice_indices self) (merge_sort Z.le ids) 0 (cache_index self).
Proof.
  intros Hwf Hv. split; [apply Sorted_merge_sort; apply _|].
  split; [apply merge_sort_Permutation|].
  destruct (prefetch_layout junk ids self Hwf Hv) as (self' & Hrun & _ & Hc & Hidx).
  eauto.
Qed.

Lemma prefetch_buffer_layout_witness :
  exists self',
    prefetch zeros [1; 0; 1]
      {| dataset := demo_stream; pad := 1; eos := 2; include_targets := false;
         slice_indices := [(0, 2); (2, 4)]; sizes := [2; 2];
         cache := Some [7]; cache_index := ∅ |} = (Ok tt, self') /\
    cache self' = Some [10; 11; 12; 13; 12; 13].
Proof.
  destruct (prefetch_buffer_layout zeros [1; 0; 1]
      {| dataset := demo_stream; pad := 1; eos := 2; include_targets := false;
         slice_indices := [(0, 2); (2, 4)]; sizes := [2; 2];
         cache := Some [7]; cache_index := ∅ |})
    as (_ & _ & self' & Hrun & Hc & _).
  - solve_wf.
  - solve_valid.
  - exists self'. split; [exact Hrun|exact Hc].
Defined.

(** X2: prefetching the same ids twice in a row changes nothing the second
    time: over a table that lies inside the stream and ids the table accepts,
    the second call returns and leaves the object exactly as the first call
    left it, whatever the uninitialised memory holds, so every [get] gives
    the same result after either call. *)
Theorem prefetch_twice_same_object (junk junk' : nat -> Z) (ids : list Z)
    (self : TokenBlockDataset) :
  wf_blocks (dataset self) (slice_indices self) ->
  valid_ids (slice_indices self) ids ->
  exists self1,
    prefetch junk ids self = (Ok tt, self1) /\
    prefetch junk' ids self1 = (Ok tt, self1).
Proof.
  intros Hwf Hv.
  destruct (prefetch_layout junk ids self Hwf Hv)
    as (self1 & Hrun1 & Hcfg1 & Hc1 & Hidx1).
  exists self1. split; [done|].
  destruct Hcfg1 as (Hds & Hpad & Heos & Hit & Hbl & Hsz).
  destruct (prefetch_layout junk' ids self1)
    as (self2 & Hrun2 & Hcfg2 & Hc2 & Hidx2).
  { by rewrite Hds, Hbl. }
  { by rewrite Hbl. }
  rewrite Hrun2. f_equal. apply dataset_eq; [done| |].
  - by rewrite Hc2, Hc1, Hds, Hbl.
  - rewrite Hidx2, Hidx1, Hbl. apply fill_index_idem. by apply valid_ids_sort.
Qed.

Lemma prefetch_twice_same_object_witness :
  exists self1,
    prefetch zeros [1; 0]
      {| dataset := demo_stream; pad := 1; eos := 2; include_targets := true;
         slice_indices := [(0, 2); (2, 4)]; sizes := [2; 2];
         cache := None; cache_index := ∅ |} = (Ok tt, self1) /\
    prefetch (fun _ => 5) [1; 0] self1 = (Ok tt, self1).
Proof.
  apply (prefetch_twice_same_object zeros (fun _ => 5) [1; 0]
      {| dataset := demo_stream; pad := 1; eos := 2; include_targets := true;
         slice_indices := [(0, 2); (2, 4)]; sizes := [2; 2];
         cache := None; cache_index := ∅ |}).
  - solve_wf.
  - solve_valid.
Defined.

(** X3: when one of the requested ids is outside the table (below [-len] or
    at [len] and beyond), [prefetch] raises [IndexError] before it allocates
    or reads anything: the object, buffer and index included, is exactly as
    it was. *)
Theorem prefetch_bad_id_unchanged (junk : nat -> Z) (ids : list Z)
    (self : TokenBlockDataset) (id : Z) :
  id ∈ ids ->
  id < - Z.of_nat (len self) \/ Z.of_nat (len self) <= id ->
  prefetch junk ids self = (Raise IndexError, self).
Proof.
  intros Hin Hid. rewrite prefetch_unfold.
  rewrite (prefetch_total_bad _ 0 self id IndexError); [done| |].
  - by rewrite elem_of_sort.
  - by apply getitem_out_of_range.
Qed.

Lemma prefetch_bad_id_unchanged_witness :
  prefetch zeros [0; 2; 1]
    {| dataset := demo_stream; pad := 1; eos := 2; include_targets := true;
       slice_indices := [(0, 2); (2, 4)]; sizes := [2; 2];
       cache := Some [12; 13]; cache_index := {[ 1 := (0, 2) ]} |}
  = (Raise IndexError,
     {| dataset := demo_stream; pad := 1; eos := 2; include_targets := true;
        slice_indices := [(0, 2); (2, 4)]; sizes := [2; 2];
        cache := Some [12; 13]; cache_index := {[ 1 := (0, 2) ]} |}).
Proof.
  apply (prefetch_bad_id_unchanged zeros [0; 2; 1] _ 2).
  - apply elem_of_cons. right. apply elem_of_cons. left. reflexivity.
  - right. unfold len. simpl. lia.
Defined.

(** X4: whatever it is called with and whether it returns or raises,
    [prefetch] changes the buffer and the index only: the block table, the
    exposed sizes, the number of blocks, the stream, [pad], [eos] and the
    [include_targets] switch are as before the call. *)
Theorem prefetch_leaves_table (junk : nat -> Z) (ids : list Z)
    (self : TokenBlockDataset) :
  same_config self (snd (prefetch junk ids self)) /\
  len (snd (prefetch junk ids self)) = len self.
Proof.
  assert (same_config self (snd (prefetch junk ids self))) as Hcfg.
  { apply (prefetch_same_config junk ids self _ (fst (prefetch junk ids self))).
    by destruct (prefetch junk ids self). }
  split; [done|]. unfold len.
  destruct Hcfg as (_ & _ & _ & _ & -> & _). done.
Qed.

(** X5: [prefetch] never removes a key of the index, whether it returns or
    raises: every id that [get] accepted before the call it accepts after. *)
Theorem prefetch_never_forgets (junk : nat -> Z) (ids : list Z)
    (self : TokenBlockDataset) :
  dom (cache_index self) ⊆ dom (cache_index (snd (prefetch junk ids self))).
Proof.
  intros id Hid. apply elem_of_dom in Hid. apply elem_of_dom.
  apply (prefetch_keeps_entries junk ids self _ (fst (prefetch junk ids self)));
    [|done].
  by destruct (prefetch junk ids self).
Qed.

(** X6: on the object the constructor returns and on every object calls of
    [prefetch] make of it, [get] raises [KeyError] for an id that is not a key
    of the index and returns for an id that is one; it never fails for want
    of a buffer.  Right after the constructor every [get] raises [KeyError]. *)
Theorem getitem_keyerror_or_returns (ds : TokenStream) (block_size pad_ eos_ : Z)
    (break_mode : option string) (include_targets_ : bool)
    (self0 self : TokenBlockDataset) (index : Z) :
  init ds block_size pad_ eos_ break_mode include_targets_ = Ok self0 ->
  reachable self0 self ->
  getitem self0 index = Raise KeyError /\
  (cache_index self !! index = None -> getitem self index = Raise KeyError) /\
  (is_Some (cache_index self !! index) -> exists x, getitem self index = Ok x).
Proof.
  intros Hinit Hreach.
  assert (cache self0 = None /\ cache_index self0 = ∅) as [Hc0 Hi0].
  { unfold init in Hinit. destruct (build_blocks _ _ _); [|done].
    by injection Hinit as <-. }
  split; [apply getitem_miss; by rewrite Hi0|].
  split; [apply getitem_miss|].
  intros [[s e] Hentry].
  destruct (cache self) as [buf|] eqn:Hc.
  - destruct (getitem_hit self index s e buf Hentry Hc) as (x & Hx & _). eauto.
  - rewrite (reachable_buffer self0 self Hreach (fun _ => Hi0) Hc) in Hentry.
    by rewrite lookup_empty in Hentry.
Qed.

Lemma getitem_keyerror_or_returns_witness :
  exists self0 self,
    init demo_stream 2 1 2 None true = Ok self0 /\
    reachable self0 self /\
    getitem self0 1 = Raise KeyError /\
    (is_Some (cache_index self !! 1) -> exists x, getitem self 1 = Ok x).
Proof.
  eexists _, (snd (prefetch zeros [1] _)).
  assert (init demo_stream 2 1 2 None true
          = Ok {| dataset := demo_stream; pad := 1; eos := 2;
                  include_targets := true;
                  slice_indices := [(0, 2); (2, 4)]; sizes := [2; 2];
                  cache := None; cache_index := ∅ |}) as Hinit by reflexivity.
  split; [exact Hinit|].
  assert (reachable
            {| dataset := demo_stream; pad := 1; eos := 2;
               include_targets := true;
               slice_indices := [(0, 2); (2, 4)]; sizes := [2; 2];
               cache := None; cache_index := ∅ |}
            (snd (prefetch zeros [1]
                    {| dataset := demo_stream; pad := 1; eos := 2;
                       include_targets := true;
                       slice_indices := [(0, 2); (2, 4)]; sizes := [2; 2];
                       cache := None; cache_index := ∅ |}))) as Hreach.
  { eapply (reach_prefetch _ zeros [1] _ _ (Ok tt)); [apply reach_init|].
    vm_compute. reflexivity. }
  split; [exact Hreach|].
  destruct (getitem_keyerror_or_returns demo_stream 2 1 2 None true _ _ 1 Hinit Hreach)
    as (H0 & _ & H1).
  split; [exact H0|exact H1].
Defined.

(** X7: with [pad] and [eos] in the range of 64-bit integers, for a cached
    entry [s, e) that lies inside the buffer, other than a one-token block at
    offset 0, [get] with targets returns three sequences
    of length [e - s]: the target [buffer[s:e]]; the source, whose first
    token is [eos] at offset 0 and [buffer[s-1]] elsewhere and whose token
    [k+1] is token [k] of the target; the past target, which starts with
    [pad, eos] at offset 0, with [eos, buffer[0]] at offset 1 and with
    [buffer[s-2], buffer[s-1]] elsewhere, and whose token [k+2] is token [k]
    of the target. *)
Theorem getitem_shifted_views (self : TokenBlockDataset) (buf : list Z)
    (index s e : Z) :
  int64 (pad self) -> int64 (eos self) ->
  cache_index self !! index = Some (s, e) ->
  cache self = Some buf ->
  include_targets self = true ->
  0 <= s < e /\ e <= Z.of_nat (length buf) ->
  (s = 0 -> 2 <= e) ->
  exists source item past_target,
    getitem self index = Ok (Triple source item past_target) /\
    item = Py.slice buf s e /\
    Z.of_nat (length item) = e - s /\
    Z.of_nat (length source) = e - s /\
    Z.of_nat (length past_target) = e - s /\
    (s = 0 -> source !! 0%nat = Some (eos self)) /\
    (0 < s -> source !! 0%nat = buf !! Z.to_nat (s - 1)) /\
    (forall k, Z.of_nat (S k) < e - s -> source !! S k = item !! k) /\
    (s = 0 -> past_target !! 0%nat = Some (pad self) /\
              past_target !! 1%nat = Some (eos self)) /\
    (s = 1 -> past_target !! 0%nat = Some (eos self) /\
              (1 < e - s -> past_target !! 1%nat = buf !! 0%nat)) /\
    (2 <= s -> past_target !! 0%nat = buf !! Z.to_nat (s - 2) /\
               (1 < e - s -> past_target !! 1%nat = buf !! Z.to_nat (s - 1))) /\
    (forall k, Z.of_nat (S (S k)) < e - s -> past_target !! S (S k) = item !! k).
Proof.
  intros _ _ Hentry Hbuf Hit Hin He.
  pose proof (getitem_triple self buf index s e Hentry Hbuf Hit) as Hget.
  destruct (source_view self buf s e Hin _ eq_refl) as (Hs1 & Hs2 & Hs3 & Hs4).
  destruct (past_target_view self buf s e Hin _ eq_refl He)
    as (Hp1 & Hp2 & Hp3 & Hp4 & Hp5).
  eexists _, _, _. split; [exact Hget|]. split; [done|].
  split; [apply slice_in_length; lia|].
  split; [done|]. split; [done|]. split; [done|]. split; [done|]. split; [done|].
  split; [done|]. split; [|split; [|done]].
  - intros H1. destruct (Hp3 H1) as [Hp30 Hp31]. split; [done|].
    intros Hlen. rewrite Hp31. simpl. rewrite slice_in_lookup by lia. done.
  - intros H2. rewrite (Hp4 H2). split.
    + rewrite slice_in_lookup by lia. f_equal. lia.
    + intros Hlen. rewrite slice_in_lookup by lia. f_equal. lia.
Qed.

Lemma getitem_shifted_views_witness :
  exists source item past_target,
    getitem {| dataset := demo_stream; pad := 1; eos := 2; include_targets := true;
               slice_indices := [(0, 2); (2, 4)]; sizes := [2; 2];
               cache := Some [10; 11; 12; 13];
               cache_index := {[ 1 := (2, 4) ]} |} 1
    = Ok (Triple source item past_target) /\
    item = Py.slice [10; 11; 12; 13] 2 4.
Proof.
  destruct (getitem_shifted_views
              {| dataset := demo_stream; pad := 1; eos := 2; include_targets := true;
                 slice_indices := [(0, 2); (2, 4)]; sizes := [2; 2];
                 cache := Some [10; 11; 12; 13];
                 cache_index := {[ 1 := (2, 4) ]} |} [10; 11; 12; 13] 1 2 4)
    as (source & item & past & Hget & Hitem & _).
  - unfold int64. simpl. lia.
  - unfold int64. simpl. lia.
  - vm_compute. reflexivity.
  - reflexivity.
  - reflexivity.
  - simpl. lia.
  - lia.
  - exists source, item, past. split; [exact Hget|exact Hitem].
Defined.

(** X8: with [pad] and [eos] in the range of 64-bit integers, for a cached
    one-token block at offset 0 of a buffer, [get] with targets returns a
    past target made of [pad], [eos] and the whole buffer
    but its last token: its length is the length of the buffer plus one,
    whatever the length of the block. *)
Theorem getitem_one_token_block (self : TokenBlockDataset) (buf : list Z)
    (index : Z) :
  int64 (pad self) -> int64 (eos self) ->
  cache_index self !! index = Some (0, 1) ->
  cache self = Some buf ->
  include_targets self = true ->
  (1 <= length buf)%nat ->
  exists source item past_target,
    getitem self index = Ok (Triple source item past_target) /\
    past_target = [pad self; eos self] ++ take (length buf - 1) buf /\
    length past_target = S (length buf).
Proof.
  intros _ _ Hentry Hbuf Hit Hlen.
  destruct (past_target_short self buf index 0 1 Hentry Hbuf Hit eq_refl eq_refl)
    as (source & item & Hget).
  eexists _, _, _. split; [exact Hget|]. split; [done|].
  rewrite length_app, length_take. simpl. lia.
Qed.

Lemma getitem_one_token_block_witness :
  exists source item past_target,
    getitem {| dataset := word_stream; pad := 1; eos := 2; include_targets := true;
               slice_indices := [(0, 1); (1, 2); (2, 3)]; sizes := [1; 1; 1];
               cache := Some [10; 11];
               cache_index := {[ 0 := (0, 1) ]} |} 0
    = Ok (Triple source item past_target) /\
    length past_target = 3%nat.
Proof.
  destruct (getitem_one_token_block
              {| dataset := word_stream; pad := 1; eos := 2; include_targets := true;
                 slice_indices := [(0, 1); (1, 2); (2, 3)]; sizes := [1; 1; 1];
                 cache := Some [10; 11];
                 cache_index := {[ 0 := (0, 1) ]} |} [10; 11] 0)
    as (source & item & past & Hget & _ & Hlen).
  - unfold int64. simpl. lia.
  - unfold int64. simpl. lia.
  - vm_compute. reflexivity.
  - reflexivity.
  - reflexivity.
  - simpl. lia.
  - exists source, item, past. split; [exact Hget|exact Hlen].
Defined.

(** X9: ids are keys as they are given.  A negative id counts from the end
    of the table in [prefetch], and the block is then cached under the
    negative id only: [get] returns its tokens for the negative id and raises
    [KeyError] for the non-negative id of the same block, unless that id was
    a key already. *)
Theorem prefetch_negative_id (junk : nat -> Z) (self : TokenBlockDataset)
    (id : Z) :
  wf_blocks (dataset self) (slice_indices self) ->
  - Z.of_nat (len self) <= id < 0 ->
  cache_index self !! (id + Z.of_nat (len self)) = None ->
  exists self' s e x,
    prefetch junk [id] self = (Ok tt, self') /\
    slice_indices self !! Z.to_nat (id + Z.of_nat (len self)) = Some (s, e) /\
    getitem self' id = Ok x /\
    target x = Py.slice (ds_tokens (dataset self)) s e /\
    getitem self' (id + Z.of_nat (len self)) = Raise KeyError.
Proof.
  intros Hwf Hid Hfresh. unfold len in *.
  destruct (getitem_in_range (slice_indices self) id ltac:(lia)) as ([s e] & Hget & Hlk).
  rewrite (proj2 (Z.ltb_lt id 0)) in Hlk by lia.
  destruct (prefetch_ok junk [id] self Hwf) as
    (self' & buf & Hrun & _ & Hc & _ & Hother & Hentries).
  { apply Forall_cons. split; [eauto|constructor]. }
  destruct (Hentries id s e) as (a & Ha & _ & _ & Hslice);
    [apply elem_of_cons; by left|done|].
  destruct (getitem_hit self' id _ _ buf Ha Hc) as (x & Hx & Ht).
  exists self', s, e, x. split; [done|]. split; [done|]. split; [done|].
  split; [by rewrite Ht|].
  apply getitem_miss. rewrite Hother; [done|].
  intros Hin. apply list_elem_of_singleton in Hin. lia.
Qed.

Lemma prefetch_negative_id_witness :
  exists self' s e x,
    prefetch zeros [-1]
      {| dataset := demo_stream; pad := 1; eos := 2; include_targets := false;
         slice_indices := [(0, 2); (2, 4)]; sizes := [2; 2];
         cache := None; cache_index := ∅ |} = (Ok tt, self') /\
    [(0, 2); (2, 4)] !! 1%nat = Some (s, e) /\
    getitem self' (-1) = Ok x /\
    target x = Py.slice [10; 11; 12; 13] s e /\
    getitem self' 1 = Raise KeyError.
Proof.
  apply (prefetch_negative_id zeros
      {| dataset := demo_stream; pad := 1; eos := 2; include_targets := false;
         slice_indices := [(0, 2); (2, 4)]; sizes := [2; 2];
         cache := None; cache_index := ∅ |} (-1)).
  - solve_wf.
  - unfold len. simpl. lia.
  - reflexivity.
Defined.

(** ** Prefetching a run of consecutive blocks *)

Lemma tiles_block_start (bl : list block) (N : Z) (j : nat) (s e : Z) :
  tiles 0 bl N -> bl !! j = Some (s, e) ->
  block_start bl N j = s /\ block_start bl N (S j) = e /\ 0 <= s < e /\ e <= N.
Proof.
  intros Ht Hj. destruct (tiles_lookup _ _ _ _ _ _ Ht Hj) as (H0 & Hlt & HN & _ & Hd).
  split; [unfold block_start; by rewrite Hj|]. split; [|lia].
  unfold block_start. destruct (bl !! S j) as [[s' e']|] eqn:HS.
  - assert (drop (S j) bl !! 0%nat = Some (s', e')) as Hd0.
    { rewrite lookup_drop. by rewrite Nat.add_0_r. }
    destruct (drop (S j) bl) as [|[s1 e1] rest]; [done|].
    injection Hd0 as -> ->. simpl in Hd. by destruct Hd as (-> & _).
  - apply lookup_ge_None in HS. rewrite drop_ge in Hd by done. by simpl in Hd.
Qed.

Lemma block_start_beyond (bl : list block) (N : Z) (j : nat) :
  (length bl <= j)%nat -> block_start bl N j = N.
Proof. intros H. unfold block_start. by rewrite (proj2 (lookup_ge_None _ _) H). Qed.

Lemma block_start_step (bl : list block) (N : Z) (j : nat) :
  tiles 0 bl N -> 0 <= N ->
  0 <= block_start bl N j <= block_start bl N (S j) /\ block_start bl N (S j) <= N.
Proof.
  intros Ht HN. destruct (bl !! j) as [[s e]|] eqn:Hj.
  - destruct (tiles_block_start _ _ _ _ _ Ht Hj) as (-> & -> & ? & ?). lia.
  - apply lookup_ge_None in Hj. rewrite !block_start_beyond by lia. lia.
Qed.

Lemma block_start_mono (bl : list block) (N : Z) (i j : nat) :
  tiles 0 bl N -> 0 <= N -> (i <= j)%nat ->
  0 <= block_start bl N i <= block_start bl N j /\ block_start bl N j <= N.
Proof.
  intros Ht HN Hij. induction Hij as [|j Hij IH].
  - destruct (block_start_step bl N i Ht HN). destruct (bl !! i) as [[s e]|] eqn:Hi.
    + destruct (tiles_block_start _ _ _ _ _ Ht Hi) as (-> & _ & ? & ?). lia.
    + apply lookup_ge_None in Hi. rewrite block_start_beyond by lia. lia.
  - destruct (block_start_step bl N j Ht HN). lia.
Qed.

Lemma getitem_of_nat {A} (l : list A) (j : nat) (x : A) :
  l !! j = Some x -> Py.getitem l (Z.of_nat j) = Ok x.
Proof.
  intros Hj. pose proof (lookup_lt_Some _ _ _ Hj) as Hlt.
  unfold Py.getitem. rewrite (proj2 (Z.ltb_ge _ 0)) by lia.
  rewrite (proj2 (andb_true_iff _ _)) by (split; [apply Z.leb_le|apply Z.ltb_lt]; lia).
  by rewrite Nat2Z.id, Hj.
Qed.

Lemma slice_app {A} (l : list A) (x y z : Z) :
  0 <= x <= y -> y <= z -> z <= Z.of_nat (length l) ->
  Py.slice l x y ++ Py.slice l y z = Py.slice l x z.
Proof.
  intros Hxy Hyz Hz. rewrite !slice_in by lia.
  replace (Z.to_nat (z - x)) with (Z.to_nat (y - x) + Z.to_nat (z - y))%nat by lia.
  rewrite <- take_take_drop, drop_drop. do 3 f_equal. lia.
Qed.

Lemma slice_slice {A} (l : list A) (a b x y : Z) :
  0 <= a <= b -> b <= Z.of_nat (length l) -> 0 <= x <= y -> y <= b - a ->
  Py.slice (Py.slice l a b) x y = Py.slice l (a + x) (a + y).
Proof.
  intros Hab Hb Hxy Hy.
  pose proof (slice_in_length l a b Hab Hb) as Hlen.
  rewrite (slice_in (Py.slice l a b)) by lia.
  rewrite (slice_in l a b), (slice_in l (a + x) (a + y)) by lia.
  set (L := drop (Z.to_nat a) l).
  replace (Z.to_nat (b - a)) with (Z.to_nat x + Z.to_nat (b - a - x))%nat by lia.
  rewrite <- (take_drop_commute L), take_take. unfold L. rewrite drop_drop.
  f_equal; [lia|]. f_equal. lia.
Qed.

Lemma id_range_S (a n : nat) : id_range a (S n) = Z.of_nat a :: id_range (S a) n.
Proof. reflexivity. Qed.

Lemma id_range_app (a k n : nat) :
  id_range a (k + n) = id_range a k ++ id_range (a + k) n.
Proof. unfold id_range. by rewrite seq_app, map_app. Qed.

Lemma elem_of_id_range (a n : nat) (x : Z) :
  x ∈ id_range a n <-> Z.of_nat a <= x < Z.of_nat (a + n).
Proof.
  unfold id_range. rewrite list_elem_of_fmap. split.
  - intros (j & -> & Hj). apply elem_of_seq in Hj. lia.
  - intros Hx. exists (Z.to_nat x). split; [lia|]. apply elem_of_seq. lia.
Qed.

Lemma id_range_sorted (a n : nat) : Sorted Z.le (id_range a n).
Proof.
  revert a. induction n as [|n IH]; intros a; [constructor|].
  rewrite id_range_S. constructor; [apply IH|].
  destruct n as [|n]; [constructor|]. rewrite id_range_S. constructor. lia.
Qed.

Lemma sort_id_range (ids : list Z) (a n : nat) :
  ids ≡ₚ id_range a n -> merge_sort Z.le ids = id_range a n.
Proof.
  intros Hp. apply (Sorted_unique Z.le).
  - apply Sorted_merge_sort; apply _.
  - apply id_range_sorted.
  - by rewrite merge_sort_Permutation.
Qed.

Lemma run_valid (bl : list block) (a n : nat) :
  (a + n <= length bl)%nat -> valid_ids bl (id_range a n).
Proof.
  intros Hn. apply Forall_forall. intros x Hx. apply elem_of_id_range in Hx.
  destruct (lookup_lt_is_Some_2 bl (Z.to_nat x)) as [b Hb]; [lia|].
  exists b. rewrite <- (Z2Nat.id x) by lia. by apply getitem_of_nat.
Qed.

Section Run.
Variable ds : TokenStream.
Variable bl : list block.
Variable N : Z.
Hypothesis table_tiles : tiles 0 bl N.
Hypothesis in_stream : N <= Z.of_nat (length (ds_tokens ds)).

Lemma run_nonneg : 0 <= N.
Proof. by apply (tiles_le 0 N bl). Qed.

Lemma run_tokens (a n : nat) :
  (a + n <= length bl)%nat ->
  concat (map (block_tokens ds bl) (id_range a n))
  = Py.slice (ds_tokens ds) (block_start bl N a) (block_start bl N (a + n)).
Proof.
  pose proof run_nonneg as HN.
  revert a. induction n as [|n IH]; intros a Hn.
  - rewrite Nat.add_0_r. simpl.
    destruct (block_start_mono bl N a a table_tiles HN ltac:(lia)).
    rewrite slice_in by lia. by rewrite Z.sub_diag.
  - rewrite id_range_S. simpl. rewrite IH by lia.
    destruct (lookup_lt_is_Some_2 bl a) as [[s e] Ha]; [lia|].
    destruct (tiles_block_start _ _ _ _ _ table_tiles Ha) as (Hs & He & ? & ?).
    unfold block_tokens at 1. rewrite (getitem_of_nat _ _ _ Ha).
    replace (a + S n)%nat with (S a + n)%nat by lia.
    destruct (block_start_mono bl N (S a) (S a + n) table_tiles HN ltac:(lia)).
    rewrite Hs, He in *. apply slice_app; lia.
Qed.
End Run.

Lemma run_lengths (bl : list block) (N : Z) (a n : nat) :
  tiles 0 bl N ->
  (a + n <= length bl)%nat ->
  Py.sum (map (block_len bl) (id_range a n))
  = block_start bl N (a + n) - block_start bl N a.
Proof.
  intros table_tiles.
  revert a. induction n as [|n IH]; intros a Hn.
  - rewrite Nat.add_0_r. simpl. rewrite sum_nil. lia.
  - rewrite id_range_S. simpl. rewrite sum_cons, IH by lia.
    destruct (lookup_lt_is_Some_2 bl a) as [[s e] Ha]; [lia|].
    destruct (tiles_block_start _ _ _ _ _ table_tiles Ha) as (Hs & He & ? & ?).
    unfold block_len at 1. rewrite (getitem_of_nat _ _ _ Ha).
    replace (a + S n)%nat with (S a + n)%nat by lia. lia.
Qed.

(** A run of consecutive blocks, prefetched in any order: the buffer is the
    stretch of the stream the run covers, and each block is found at its
    position in the stream less the start of the run. *)
Lemma run_prefetch (junk : nat -> Z) (ids : list Z) (self : TokenBlockDataset)
    (N : Z) (a n : nat) :
  tiles 0 (slice_indices self) N ->
  N <= Z.of_nat (length (ds_tokens (dataset self))) ->
  ids ≡ₚ id_range a n ->
  (a + n <= length (slice_indices self))%nat ->
  exists self',
    prefetch junk ids self = (Ok tt, self') /\
    same_config self self' /\
    cache self'
    = Some (Py.slice (ds_tokens (dataset self))
              (block_start (slice_indices self) N a)
              (block_start (slice_indices self) N (a + n))) /\
    forall k s e,
      (k < n)%nat -> slice_indices self !! (a + k)%nat = Some (s, e) ->
      cache_index self' !! Z.of_nat (a + k)
      = Some (s - block_start (slice_indices self) N a,
              s - block_start (slice_indices self) N a + e - s).
Proof.
  intros Ht HN Hp Hn.
  pose proof (tiles_wf _ _ _ Ht HN) as Hwf.
  pose proof (run_valid (slice_indices self) a n Hn) as Hv.
  assert (valid_ids (slice_indices self) ids) as Hv'.
  { unfold valid_ids. by rewrite Hp. }
  destruct (prefetch_layout junk ids self Hwf Hv') as (self' & Hrun & Hcfg & Hc & Hidx).
  rewrite (sort_id_range _ _ _ Hp) in Hc, Hidx.
  exists self'. split; [done|]. split; [done|]. split.
  { rewrite Hc. f_equal. by apply run_tokens. }
  intros k s e Hk Hlk. rewrite Hidx.
  replace n with (k + S (n - S k))%nat by lia.
  rewrite id_range_app, id_range_S.
  rewrite (fill_index_lookup_split _ _ _ _ 0 s e).
  - rewrite Z.add_0_l, (run_lengths _ N _ _ Ht) by lia.
    destruct (tiles_block_start _ _ _ _ _ Ht Hlk) as (-> & _). done.
  - apply run_valid. lia.
  - rewrite elem_of_id_range. lia.
  - by apply getitem_of_nat.
Qed.

(** X10: with [pad] and [eos] in the range of 64-bit integers, when a run of
    consecutive blocks of a table that tiles the stream is prefetched, in any
    order, every block of the run but the first gets as
    source the stream shifted by one token, [stream[s-1:e-1]], and as target
    [stream[s:e]]; its past target is the stream shifted by two tokens,
    [stream[s-2:e-2]], when the blocks before it in the run hold two tokens
    at least, and [eos] followed by [stream[s-1:e-2]] when they hold one. *)
Theorem run_views_inner (junk : nat -> Z) (ids : list Z) (self : TokenBlockDataset)
    (N : Z) (a n k : nat) (s e : Z) :
  int64 (pad self) -> int64 (eos self) ->
  include_targets self = true ->
  tiles 0 (slice_indices self) N ->
  N <= Z.of_nat (length (ds_tokens (dataset self))) ->
  ids ≡ₚ id_range a n ->
  (a + n <= length (slice_indices self))%nat ->
  (1 <= k < n)%nat ->
  slice_indices self !! (a + k)%nat = Some (s, e) ->
  exists self' source item past_target,
    prefetch junk ids self = (Ok tt, self') /\
    getitem self' (Z.of_nat (a + k)) = Ok (Triple source item past_target) /\
    item = Py.slice (ds_tokens (dataset self)) s e /\
    source = Py.slice (ds_tokens (dataset self)) (s - 1) (e - 1) /\
    (block_start (slice_indices self) N a + 2 <= s ->
     past_target = Py.slice (ds_tokens (dataset self)) (s - 2) (e - 2)) /\
    (block_start (slice_indices self) N a + 1 = s ->
     past_target = [eos self] ++ Py.slice (ds_tokens (dataset self)) (s - 1) (e - 2)).
Proof.
  intros _ _ Hit Ht HN Hp Hn Hk Hlk.
  destruct (run_prefetch junk ids self N a n Ht HN Hp Hn)
    as (self' & Hrun & Hcfg & Hc & Hidx).
  specialize (Hidx k s e ltac:(lia) Hlk).
  destruct Hcfg as (_ & _ & Heos & Hit' & _).
  pose proof (tiles_le _ _ _ Ht) as HN0.
  set (toks := ds_tokens (dataset self)) in *.
  set (S0 := block_start (slice_indices self) N a) in *.
  set (E0 := block_start (slice_indices self) N (a + n)) in *.
  destruct (tiles_block_start _ _ _ _ _ Ht Hlk) as (Hs & He & Hse & HeN).
  destruct (lookup_lt_is_Some_2 (slice_indices self) a) as [[sa ea] Ha]; [lia|].
  destruct (tiles_block_start _ _ _ _ _ Ht Ha) as (Hsa & Hea & Hsea & _).
  fold S0 in Hsa.
  destruct (block_start_mono (slice_indices self) N (S a) (a + k) Ht HN0 ltac:(lia))
    as [Hm1 _].
  destruct (block_start_mono (slice_indices self) N (S (a + k)) (a + n) Ht HN0 ltac:(lia))
    as [Hm2 Hm3].
  fold E0 in Hm2, Hm3. rewrite Hs, Hea in Hm1. rewrite He in Hm2.
  assert (0 <= S0 /\ S0 + 1 <= s) as [HS0 HS1] by lia.
  assert (Z.of_nat (length (Py.slice toks S0 E0)) = E0 - S0) as Hlen.
  { apply slice_in_length; lia. }
  assert (cache_index self' !! Z.of_nat (a + k) = Some (s - S0, e - S0)) as Hidx'.
  { rewrite Hidx. do 2 f_equal. lia. }
  pose proof (getitem_triple self' (Py.slice toks S0 E0) (Z.of_nat (a + k))
                (s - S0) (e - S0) Hidx' Hc ltac:(congruence)) as Hget.
  rewrite (proj2 (Z.eqb_neq (s - S0) 0)) in Hget by lia.
  eexists self', _, _, _. split; [done|]. split; [exact Hget|].
  split; [rewrite slice_slice by lia; f_equal; lia|].
  split; [rewrite slice_slice by lia; f_equal; lia|].
  split.
  - intros H2. rewrite (proj2 (Z.eqb_neq (s - S0) 1)) by lia.
    rewrite slice_slice by lia. f_equal; lia.
  - intros H1. rewrite (proj2 (Z.eqb_eq (s - S0) 1)) by lia.
    rewrite Heos. f_equal. rewrite slice_slice by lia. f_equal; lia.
Qed.

Lemma run_views_inner_witness :
  exists self' source item past_target,
    prefetch zeros [2; 1]
      {| dataset := {| ds_sizes := [2; 2; 2]; ds_tokens := [10; 11; 12; 13; 14; 15] |};
         pad := 1; eos := 2; include_targets := true;
         slice_indices := [(0, 2); (2, 4); (4, 6)]; sizes := [2; 2; 2];
         cache := None; cache_index := ∅ |} = (Ok tt, self') /\
    getitem self' 2 = Ok (Triple source item past_target) /\
    item = [14; 15] /\ source = [13; 14].
Proof.
  destruct (run_views_inner zeros [2; 1]
      {| dataset := {| ds_sizes := [2; 2; 2]; ds_tokens := [10; 11; 12; 13; 14; 15] |};
         pad := 1; eos := 2; include_targets := true;
         slice_indices := [(0, 2); (2, 4); (4, 6)]; sizes := [2; 2; 2];
         cache := None; cache_index := ∅ |} 6 1 2 1 4 6)
    as (self' & source & item & past & Hrun & Hget & Hitem & Hsource & _).
  - unfold int64. simpl. lia.
  - unfold int64. simpl. lia.
  - reflexivity.
  - simpl. repeat split; lia.
  - simpl. lia.
  - apply Permutation_swap.
  - simpl. lia.
  - lia.
  - reflexivity.
  - exists self', source, item, past.
    split; [exact Hrun|]. split; [exact Hget|]. split; [exact Hitem|exact Hsource].
Defined.

(** X11: with [pad] and [eos] in the range of 64-bit integers, when a run of
    consecutive blocks of a table that tiles the stream is prefetched, in any
    order, the first block of the run, if it holds two
    tokens at least, gets as source [eos] followed by [stream[s:e-1]] and as
    past target [pad], [eos] followed by [stream[s:e-2]], whether or not it
    is the first block of the stream. *)
Theorem run_views_first (junk : nat -> Z) (ids : list Z) (self : TokenBlockDataset)
    (N : Z) (a n : nat) (s e : Z) :
  int64 (pad self) -> int64 (eos self) ->
  include_targets self = true ->
  tiles 0 (slice_indices self) N ->
  N <= Z.of_nat (length (ds_tokens (dataset self))) ->
  ids ≡ₚ id_range a n ->
  (a + n <= length (slice_indices self))%nat ->
  (1 <= n)%nat ->
  slice_indices self !! a = Some (s, e) ->
  s + 2 <= e ->
  exists self',
    prefetch junk ids self = (Ok tt, self') /\
    getitem self' (Z.of_nat a)
    = Ok (Triple ([eos self] ++ Py.slice (ds_tokens (dataset self)) s (e - 1))
                 (Py.slice (ds_tokens (dataset self)) s e)
                 ([pad self; eos self]
                  ++ Py.slice (ds_tokens (dataset self)) s (e - 2))).
Proof.
  intros _ _ Hit Ht HN Hp Hn Hn1 Hlk Hlen2.
  destruct (run_prefetch junk ids self N a n Ht HN Hp Hn)
    as (self' & Hrun & Hcfg & Hc & Hidx).
  specialize (Hidx 0%nat s e ltac:(lia)). rewrite Nat.add_0_r in Hidx.
  specialize (Hidx Hlk).
  destruct Hcfg as (_ & Hpad & Heos & Hit' & _).
  pose proof (tiles_le _ _ _ Ht) as HN0.
  set (toks := ds_tokens (dataset self)) in *.
  destruct (tiles_block_start _ _ _ _ _ Ht Hlk) as (Hs & He & Hse & HeN).
  rewrite Hs in Hidx, Hc.
  destruct (block_start_mono (slice_indices self) N (S a) (a + n) Ht HN0 ltac:(lia))
    as [Hm2 Hm3].
  rewrite He in Hm2.
  set (E0 := block_start (slice_indices self) N (a + n)) in *.
  assert (cache_index self' !! Z.of_nat a = Some (0, e - s)) as Hidx'.
  { rewrite Hidx. do 2 f_equal; lia. }
  pose proof (getitem_triple self' (Py.slice toks s E0) (Z.of_nat a)
                0 (e - s) Hidx' Hc ltac:(congruence)) as Hget.
  simpl in Hget. rewrite !slice_slice in Hget by lia.
  rewrite Z.add_0_r in Hget.
  replace (s + (e - s - 1)) with (e - 1) in Hget by lia.
  replace (s + (e - s - 2)) with (e - 2) in Hget by lia.
  replace (s + (e - s)) with e in Hget by lia.
  exists self'. split; [done|]. by rewrite Hget, Hpad, Heos.
Qed.

Lemma run_views_first_witness :
  exists self',
    prefetch zeros [2; 1]
      {| dataset := {| ds_sizes := [2; 2; 2]; ds_tokens := [10; 11; 12; 13; 14; 15] |};
         pad := 1; eos := 2; include_targets := true;
         slice_indices := [(0, 2); (2, 4); (4, 6)]; sizes := [2; 2; 2];
         cache := None; cache_index := ∅ |} = (Ok tt, self') /\
    getitem self' 1
    = Ok (Triple ([2] ++ Py.slice [10; 11; 12; 13; 14; 15] 2 (4 - 1))
                 (Py.slice [10; 11; 12; 13; 14; 15] 2 4)
                 ([1; 2] ++ Py.slice [10; 11; 12; 13; 14; 15] 2 (4 - 2))).
Proof.
  apply (run_views_first zeros [2; 1]
      {| dataset := {| ds_sizes := [2; 2; 2]; ds_tokens := [10; 11; 12; 13; 14; 15] |};
         pad := 1; eos := 2; include_targets := true;
         slice_indices := [(0, 2); (2, 4); (4, 6)]; sizes := [2; 2; 2];
         cache := None; cache_index := ∅ |} 6 1 2 2 4).
  - unfold int64. simpl. lia.
  - unfold int64. simpl. lia.
  - reflexivity.
  - simpl. repeat split; lia.
  - simpl. lia.
  - apply Permutation_swap.
  - simpl. lia.
  - lia.
  - reflexivity.
  - lia.
Defined.

(** * Further properties of the block table *)

Lemma eos_from_tiles (c : Z) (szs : list Z) :
  Forall (fun x => 0 <= x) szs -> tiles c (eos_from c szs) (c + Py.sum szs).
Proof.
  intros Hpos. revert c. induction Hpos as [|x szs Hx _ IH]; intros c.
  - simpl. rewrite sum_nil. lia.
  - simpl. rewrite sum_cons, Z.add_assoc. destruct (0 <? x) eqn:Hc.
    + apply Z.ltb_lt in Hc. simpl. split; [done|]. split; [lia|]. apply IH.
    + apply Z.ltb_ge in Hc. assert (x = 0) as -> by lia.
      specialize (IH c). by rewrite Z.add_0_r in *.
Qed.

Lemma tiles_empty (a : Z) (bl : list block) : tiles a bl a -> bl = [].
Proof.
  destruct bl as [|[s e] bl]; [done|]. simpl. intros (-> & Hlt & Ht).
  apply tiles_le in Ht. lia.
Qed.

Lemma tiles_one_block (p N : Z) (bl : list block) :
  tiles 0 bl N -> 0 <= p < N ->
  exists i s e,
    bl !! i = Some (s, e) /\ s <= p < e /\
    forall i' s' e', bl !! i' = Some (s', e') -> s' <= p < e' -> i' = i.
Proof.
  intros Ht Hp. destruct (tiles_cover 0 N p bl Ht Hp) as (i & s & e & Hi & Hr).
  exists i, s, e. split; [done|]. split; [done|].
  intros i' s' e' Hi' Hr'.
  destruct (lt_eq_lt_dec i' i) as [[Hlt|Heq]|Hgt]; [|done|].
  - pose proof (tiles_ordered _ _ _ _ _ _ _ _ _ Ht Hi' Hi Hlt). lia.
  - pose proof (tiles_ordered _ _ _ _ _ _ _ _ _ Ht Hi Hi' Hgt). lia.
Qed.

Lemma build_blocks_tiles (szs : list Z) (block_size : Z)
    (break_mode : option string) (bl : list block) :
  Forall (fun x => 0 <= x) szs -> 0 < block_size ->
  (break_mode = None \/ break_mode = Some "none"%string ->
   Py.sum szs < 2 ^ 53 /\ block_size < 2 ^ 53) ->
  build_blocks szs block_size break_mode = Ok bl ->
  tiles 0 bl (Py.sum szs).
Proof.
  intros Hpos Hbs H53 Hbl. pose proof (sum_nonneg _ Hpos) as H0.
  assert (Py.sum szs < 2 ^ 53 /\ block_size < 2 ^ 53 ->
          none_blocks szs block_size = Ok bl -> tiles 0 bl (Py.sum szs)) as Hnone.
  { intros [? ?]. rewrite none_blocks_exact by lia. intros [= <-].
    apply exact_blocks_tile; lia. }
  unfold build_blocks in Hbl. destruct break_mode as [mode|]; [|auto].
  destruct (String.eqb mode "none") eqn:Hm.
  { apply String.eqb_eq in Hm. subst mode. auto. }
  destruct (String.eqb mode "complete").
  - destruct (complete_blocks_spec _ block_size Hpos Hbs) as (bl' & Hc & Ht & _).
    rewrite Hc in Hbl. by injection Hbl as <-.
  - destruct (String.eqb mode "eos"); [|done].
    injection Hbl as <-. rewrite eos_blocks_from.
    pose proof (eos_from_tiles 0 szs Hpos) as Ht. by rewrite Z.add_0_l in Ht.
Qed.

Lemma table_tiles_stream_aux (ds : TokenStream) (block_size pad_ eos_ : Z)
    (break_mode : option string) (include_targets_ : bool)
    (self : TokenBlockDataset) :
  Forall (fun x => 0 <= x) (ds_sizes ds) -> 0 < block_size ->
  (break_mode = None \/ break_mode = Some "none"%string ->
   Py.sum (ds_sizes ds) < 2 ^ 53 /\ block_size < 2 ^ 53) ->
  init ds block_size pad_ eos_ break_mode include_targets_ = Ok self ->
  tiles 0 (slice_indices self) (Py.sum (ds_sizes ds)) /\ dataset self = ds.
Proof.
  intros Hpos Hbs H53 Hinit. unfold init in Hinit.
  destruct (build_blocks _ _ _) as [bl|] eqn:Hbl; [|done].
  injection Hinit as <-. simpl. split; [|done].
  by apply (build_blocks_tiles _ _ _ _ Hpos Hbs H53 Hbl).
Qed.

(** X12: for non-negative sizes and a positive block size (below [2 ^ 53],
    as the token count, in break_mode ['none']), the table the constructor
    builds in any of the three modes tiles the stream: its blocks are
    non-empty, the first starts at 0, each starts where the one before ends
    and the last ends at the token count [N].  So every token position lies
    in exactly one block, the exposed sizes add up to [N], a stream without
    tokens has no block, and the table lies inside a stream that holds the
    tokens its sizes announce. *)
Theorem table_tiles_stream (ds : TokenStream) (block_size pad_ eos_ : Z)
    (break_mode : option string) (include_targets_ : bool)
    (self : TokenBlockDataset) :
  Forall (fun x => 0 <= x) (ds_sizes ds) -> 0 < block_size ->
  (break_mode = None \/ break_mode = Some "none"%string ->
   Py.sum (ds_sizes ds) < 2 ^ 53 /\ block_size < 2 ^ 53) ->
  init ds block_size pad_ eos_ break_mode include_targets_ = Ok self ->
  tiles 0 (slice_indices self) (Py.sum (ds_sizes ds)) /\
  (forall p, 0 <= p < Py.sum (ds_sizes ds) ->
     exists i s e,
       slice_indices self !! i = Some (s, e) /\ s <= p < e /\
       forall i' s' e', slice_indices self !! i' = Some (s', e') ->
         s' <= p < e' -> i' = i) /\
  Py.sum (sizes self) = Py.sum (ds_sizes ds) /\
  (Py.sum (ds_sizes ds) = 0 -> len self = 0%nat) /\
  (Py.sum (ds_sizes ds) <= Z.of_nat (length (ds_tokens ds)) ->
   wf_blocks (dataset self) (slice_indices self)).
Proof.
  intros Hpos Hbs H53 Hinit. unfold init in Hinit.
  destruct (build_blocks _ _ _) as [bl|] eqn:Hbl; [|done].
  injection Hinit as <-. simpl.
  pose proof (build_blocks_tiles _ _ _ _ Hpos Hbs H53 Hbl) as Ht.
  split; [done|]. split; [intros p Hp; by apply (tiles_one_block p _ _ Ht)|].
  split; [rewrite (tiles_lengths 0 _ _ Ht); lia|]. split.
  - intros HN. rewrite HN in Ht. unfold len. simpl. by rewrite (tiles_empty _ _ Ht).
  - intros HN. by apply (tiles_wf _ _ _ Ht).
Qed.

Lemma table_tiles_stream_witness :
  exists self,
    init {| ds_sizes := [0; 2; 0; 3]; ds_tokens := [10; 11; 12; 13; 14] |}
         4 1 2 (Some "eos"%string) false = Ok self /\
    tiles 0 (slice_indices self) 5.
Proof.
  eexists. split; [reflexivity|].
  apply (table_tiles_stream
           {| ds_sizes := [0; 2; 0; 3]; ds_tokens := [10; 11; 12; 13; 14] |}
           4 1 2 (Some "eos"%string) false).
  - repeat (apply Forall_cons; split; [lia|]). constructor.
  - lia.
  - intros [H|H]; discriminate H.
  - reflexivity.
Defined.

(** X13: the constructor, [prefetch] and [get] composed.  Over a stream that
    holds the tokens its sizes announce (non-negative sizes, a positive block
    size, both below [2 ^ 53] in break_mode ['none']), on the object the
    constructor returns and on whatever earlier calls of [prefetch] made of
    it, prefetching ids between 0 and the number of blocks returns, and then
    [get] of each of them returns with the tokens of its block as target. *)
Theorem init_prefetch_get (ds : TokenStream) (block_size pad_ eos_ : Z)
    (break_mode : option string) (include_targets_ : bool)
    (self0 self : TokenBlockDataset) (junk : nat -> Z) (ids : list Z) :
  Forall (fun x => 0 <= x) (ds_sizes ds) -> 0 < block_size ->
  (break_mode = None \/ break_mode = Some "none"%string ->
   Py.sum (ds_sizes ds) < 2 ^ 53 /\ block_size < 2 ^ 53) ->
  Py.sum (ds_sizes ds) = Z.of_nat (length (ds_tokens ds)) ->
  init ds block_size pad_ eos_ break_mode include_targets_ = Ok self0 ->
  reachable self0 self ->
  Forall (fun id => 0 <= id < Z.of_nat (len self0)) ids ->
  exists self',
    prefetch junk ids self = (Ok tt, self') /\
    forall id, id ∈ ids ->
      exists s e x,
        slice_indices self0 !! Z.to_nat id = Some (s, e) /\
        getitem self' id = Ok x /\
        target x = Py.slice (ds_tokens ds) s e.
Proof.
  intros Hpos Hbs H53 HN Hinit Hreach Hids.
  destruct (table_tiles_stream_aux ds block_size pad_ eos_ break_mode
              include_targets_ self0 Hpos Hbs H53 Hinit) as (Ht & Hds).
  destruct (reachable_config _ _ Hreach) as (Hds' & _ & _ & _ & Hbl & _).
  assert (wf_blocks (dataset self) (slice_indices self)) as Hwf.
  { rewrite Hds', Hbl, Hds. apply (tiles_wf _ _ _ Ht). lia. }
  assert (forall id, id ∈ ids ->
            exists b, slice_indices self0 !! Z.to_nat id = Some b /\
                      Py.getitem (slice_indices self) id = Ok b) as Hget.
  { intros id Hin. pose proof (proj1 (Forall_forall _ _) Hids id Hin) as Hid.
    unfold len in Hid.
    destruct (lookup_lt_is_Some_2 (slice_indices self0) (Z.to_nat id)) as [b Hb]; [lia|].
    exists b. split; [done|]. rewrite Hbl, <- (Z2Nat.id id) by lia.
    by apply getitem_of_nat. }
  assert (valid_ids (slice_indices self) ids) as Hv.
  { apply Forall_forall. intros id Hin. destruct (Hget id Hin) as (b & _ & Hb). eauto. }
  destruct (prefetch_ok junk ids self Hwf Hv)
    as (self' & buf & Hrun & _ & Hc & _ & _ & Hentries).
  exists self'. split; [done|]. intros id Hin.
  destruct (Hget id Hin) as ([s e] & Hlk & Hid).
  destruct (Hentries id s e Hin Hid) as (a & Ha & _ & _ & Hslice).
  destruct (getitem_hit self' id _ _ buf Ha Hc) as (x & Hx & Htx).
  exists s, e, x. split; [done|]. split; [done|].
  by rewrite Htx, Hslice, Hds', Hds.
Qed.

Lemma init_prefetch_get_witness :
  exists self0 self',
    init {| ds_sizes := [3; 3; 3]; ds_tokens := [1; 2; 3; 4; 5; 6; 7; 8; 9] |}
         4 1 2 (Some "complete"%string) false = Ok self0 /\
    prefetch zeros [2; 0] self0 = (Ok tt, self') /\
    exists s e x,
      slice_indices self0 !! Z.to_nat 2 = Some (s, e) /\
      getitem self' 2 = Ok x /\
      target x = Py.slice [1; 2; 3; 4; 5; 6; 7; 8; 9] s e.
Proof.
  assert (init {| ds_sizes := [3; 3; 3]; ds_tokens := [1; 2; 3; 4; 5; 6; 7; 8; 9] |}
               4 1 2 (Some "complete"%string) false
          = Ok {| dataset := {| ds_sizes := [3; 3; 3];
                                ds_tokens := [1; 2; 3; 4; 5; 6; 7; 8; 9] |};
                  pad := 1; eos := 2; include_targets := false;
                  slice_indices := [(0, 3); (3, 6); (6, 9)]; sizes := [3; 3; 3];
                  cache := None; cache_index := ∅ |}) as Hinit by reflexivity.
  destruct (init_prefetch_get
              {| ds_sizes := [3; 3; 3]; ds_tokens := [1; 2; 3; 4; 5; 6; 7; 8; 9] |}
              4 1 2 (Some "complete"%string) false _ _ zeros [2; 0]
              ltac:(repeat (apply Forall_cons; split; [lia|]); constructor)
              ltac:(lia)
              ltac:(intros [H|H]; discriminate H)
              ltac:(reflexivity)
              Hinit
              (reach_init _))
    as (self' & Hrun & Hget).
  - repeat (apply Forall_cons; split; [unfold len; simpl; lia|]). constructor.
  - eexists _, self'. split; [exact Hinit|]. split; [exact Hrun|].
    apply (Hget 2). apply elem_of_cons. left. reflexivity.
Defined.

(** ** Greedy packing in break_mode ['complete'] *)

Lemma complete_overflow_body (szs : list Z) (block_size : Z) (st : loop_state) :
  complete_inv szs block_size st /\ closed_by_overflow szs block_size (emitted st) ->
  complete_guard szs st = true ->
  Forall (fun x => 0 <= x) szs -> 0 < block_size ->
  complete_inv szs block_size (complete_body szs block_size st) /\
  closed_by_overflow szs block_size (emitted (complete_body szs block_size st)).
Proof.
  intros [Hinv Hov] Hg Hpos Hbs.
  split; [by apply complete_inv_body|].
  unfold complete_guard in Hg. apply Nat.ltb_lt in Hg.
  destruct (lookup_lt_is_Some_2 szs (sz_idx st) Hg) as [sz Hsz].
  destruct (complete_fits szs block_size st) eqn:Hfits.
  - by rewrite (complete_body_advance _ _ _ Hfits).
  - rewrite (complete_body_emit _ _ _ Hfits). simpl.
    unfold complete_fits in Hfits. rewrite (nth_lookup_Some _ _ 0 _ Hsz) in Hfits.
    apply orb_false_iff in Hfits as [Hle _]. apply Z.leb_gt in Hle.
    intros s e [Hin|Hin]%elem_of_app; [by apply Hov|].
    apply list_elem_of_singleton in Hin. injection Hin as -> ->.
    exists (sz_idx st), sz. split; [done|].
    split; [symmetry; apply (inv_pos _ _ _ Hinv)|lia].
Qed.

Lemma complete_blocks_overflow (szs : list Z) (block_size : Z) :
  Forall (fun x => 0 <= x) szs -> 0 < block_size ->
  exists st,
    complete_blocks szs block_size = Ok (complete_flush st) /\
    closed_by_overflow szs block_size (emitted st).
Proof.
  intros Hpos Hbs.
  destruct (complete_blocks_inv szs block_size Hpos Hbs)
    as (n & st & Hw & _ & _ & _ & Hbl).
  exists st. split; [done|].
  destruct (complete_while_inv szs block_size
              (fun st => complete_inv szs block_size st /\
                         closed_by_overflow szs block_size (emitted st)))
    with (fuel := (2 * length szs)%nat) (st := complete_init) (n := n) (st' := st)
    as [[_ Hov] _]; [| |exact Hw|exact Hov].
  - intros st0 H0 Hg. cbv beta in *. by apply complete_overflow_body.
  - split; [by apply complete_inv_init|]. unfold closed_by_overflow.
    intros s e Hin. by apply elem_of_nil in Hin.
Qed.

(** X14: break_mode ['complete'] packs greedily.  For non-negative sizes and
    a positive block size, every block but the last was closed because the
    next unit did not fit: its length plus the size of the unit that starts
    where it ends exceeds [block_size].  In particular, when all the tokens
    fit in [block_size], the table is the single block [(0, N)]. *)
Theorem complete_blocks_greedy (szs : list Z) (block_size : Z) :
  Forall (fun x => 0 <= x) szs -> 0 < block_size ->
  exists bl,
    complete_blocks szs block_size = Ok bl /\
    (forall i s e, (S i < length bl)%nat -> bl !! i = Some (s, e) ->
       exists j sz, szs !! j = Some sz /\ prefix szs j = e /\
                    block_size < e - s + sz) /\
    (0 < Py.sum szs <= block_size -> bl = [(0, Py.sum szs)]).
Proof.
  intros Hpos Hbs.
  destruct (complete_blocks_overflow szs block_size Hpos Hbs) as (st & Hbl & Hov).
  destruct (complete_blocks_spec szs block_size Hpos Hbs) as (bl & Hbl' & Ht & _).
  exists bl. split; [done|].
  assert (forall i s e, (S i < length bl)%nat -> bl !! i = Some (s, e) ->
            exists j sz, szs !! j = Some sz /\ prefix szs j = e /\
                         block_size < e - s + sz) as Hgreedy.
  { rewrite Hbl in Hbl'. injection Hbl' as <-.
    intros i s e Hi Hlk. apply Hov. unfold complete_flush in *.
    destruct (0 <? curr_size st).
    - rewrite length_app in Hi. simpl in Hi.
      rewrite lookup_app_l in Hlk by lia. apply list_elem_of_lookup. eauto.
    - apply list_elem_of_lookup. eauto. }
  split; [done|]. intros HN.
  destruct bl as [|[s e] rest]; [simpl in Ht; lia|].
  destruct Ht as (-> & Hlt & Ht).
  destruct rest as [|b rest].
  - simpl in Ht. by subst e.
  - destruct (Hgreedy 0%nat 0 e) as (j & sz & Hj & Hp & Hbig); [simpl; lia|done|].
    pose proof (prefix_S _ _ _ Hj) as HS.
    pose proof (lookup_lt_Some _ _ _ Hj) as Hjlt.
    pose proof (prefix_mono szs (S j) (length szs) Hpos ltac:(lia)) as Hmono.
    rewrite (prefix_all szs (length szs)) in Hmono by lia. lia.
Qed.

Lemma complete_blocks_greedy_witness :
  exists bl, complete_blocks [3; 1; 2; 4] 4 = Ok bl /\
             (0 < Py.sum [3; 1; 2; 4] <= 4 -> bl = [(0, Py.sum [3; 1; 2; 4])]).
Proof.
  destruct (complete_blocks_greedy [3; 1; 2; 4] 4) as (bl & Hbl & _ & Hone).
  - repeat (apply Forall_cons; split; [lia|]). constructor.
  - lia.
  - exists bl. split; [exact Hbl|exact Hone].
Defined.

(** ** Break_mode ['none'] below [2 ^ 53] *)

(** X15: in break_mode ['none'] (or with no break mode), for non-negative
    sizes that add up to [N < 2 ^ 53] and [0 < block_size < 2 ^ 53], the
    constructor returns a table of exactly [ceil (N / block_size)] blocks,
    block [i] being [i * block_size, min ((i + 1) * block_size, N)); every
    exposed size but the last is [block_size], the last block is not empty
    and not longer than [block_size], and the exposed sizes add up to [N]. *)
Theorem none_mode_blocks (ds : TokenStream) (block_size pad_ eos_ : Z)
    (break_mode : option string) (include_targets_ : bool) :
  Forall (fun x => 0 <= x) (ds_sizes ds) ->
  Py.sum (ds_sizes ds) < 2 ^ 53 -> 0 < block_size < 2 ^ 53 ->
  break_mode = None \/ break_mode = Some "none"%string ->
  exists self,
    init ds block_size pad_ eos_ break_mode include_targets_ = Ok self /\
    Z.of_nat (len self) = ceil_div (Py.sum (ds_sizes ds)) block_size /\
    (forall i, (i < len self)%nat ->
       slice_indices self !! i
       = Some (Z.of_nat i * block_size,
               Z.min ((Z.of_nat i + 1) * block_size) (Py.sum (ds_sizes ds)))) /\
    (forall i, (S i < len self)%nat -> sizes self !! i = Some block_size) /\
    (forall i sz, S i = len self -> sizes self !! i = Some sz ->
       0 < sz <= block_size) /\
    Py.sum (sizes self) = Py.sum (ds_sizes ds).
Proof.
  intros Hpos H53 Hb Hmode.
  destruct (none_blocks_exact_spec _ _ Hpos H53 Hb)
    as (bl & Hbl & Hlen & Hlk & Hsum & Hfull).
  assert (build_blocks (ds_sizes ds) block_size break_mode = Ok bl) as Hbuild.
  { by destruct Hmode as [-> | ->]. }
  unfold init. rewrite Hbuild. eexists. split; [reflexivity|].
  unfold len. simpl. split; [done|]. split; [done|]. split; [|split; [|done]].
  - intros i Hi. rewrite list_lookup_fmap, (Hlk i) by lia. simpl.
    f_equal. apply (Hfull i _ _ Hi). by apply Hlk; lia.
  - intros i sz Hi Hsz. rewrite list_lookup_fmap, (Hlk i) in Hsz by lia.
    simpl in Hsz. injection Hsz as <-.
    pose proof (sum_nonneg _ Hpos) as H0.
    pose proof (ceil_div_spec (Py.sum (ds_sizes ds)) block_size ltac:(lia)) as Hk.
    assert (Z.of_nat i = ceil_div (Py.sum (ds_sizes ds)) block_size - 1) as Hi' by lia.
    rewrite Hi'. lia.
Qed.

Lemma none_mode_blocks_witness :
  exists self,
    init {| ds_sizes := [3; 3; 3]; ds_tokens := [1; 2; 3; 4; 5; 6; 7; 8; 9] |}
         4 1 2 None false = Ok self /\
    Z.of_nat (len self) = ceil_div (Py.sum [3; 3; 3]) 4.
Proof.
  destruct (none_mode_blocks
              {| ds_sizes := [3; 3; 3]; ds_tokens := [1; 2; 3; 4; 5; 6; 7; 8; 9] |}
              4 1 2 None false) as (self & Hinit & Hlen & _).
  - repeat (apply Forall_cons; split; [lia|]). constructor.
  - vm_compute. reflexivity.
  - split; [lia|]. vm_compute. reflexivity.
  - left. reflexivity.
  - exists self. split; [exact Hinit|exact Hlen].
Defined.

(** ** Errors of the constructor *)

Lemma complete_blocks_returns (szs : list Z) (block_size : Z) :
  exists bl, complete_blocks szs block_size = Ok bl.
Proof.
  destruct (complete_while_terminates szs block_size (2 * length szs) complete_init)
    as (n & st & Hw & _).
  { unfold complete_measure. simpl. lia. }
  unfold complete_blocks. rewrite Hw. eauto.
Qed.

(** X16: the constructor raises [ValueError] for every break mode other than
    [None], ['none'], ['complete'] and ['eos'], whatever the sizes and the
    block size; in break_mode ['none'] a block size of 0 makes it raise and
    build no object (which exception depends on the number type of the
    sizes, so the statement names none); in break modes ['complete'] and
    ['eos'] it returns for all sizes and every block size, with no buffer and
    an empty index. *)
Theorem init_errors (ds : TokenStream) (block_size pad_ eos_ : Z)
    (break_mode : option string) (include_targets_ : bool) :
  (~ supported break_mode ->
   init ds block_size pad_ eos_ break_mode include_targets_ = Raise ValueError) /\
  (break_mode = None \/ break_mode = Some "none"%string -> block_size = 0 ->
   exists x, init ds block_size pad_ eos_ break_mode include_targets_ = Raise x) /\
  (break_mode = Some "complete"%string \/ break_mode = Some "eos"%string ->
   exists self,
     init ds block_size pad_ eos_ break_mode include_targets_ = Ok self /\
     cache self = None /\ cache_index self = ∅ /\ dataset self = ds).
Proof.
  split; [|split].
  - intros Hns. unfold init, build_blocks.
    destruct break_mode as [mode|]; [|exfalso; apply Hns; by left].
    destruct (String.eqb mode "none") eqn:H1.
    { apply String.eqb_eq in H1. subst. exfalso. apply Hns. right. by left. }
    destruct (String.eqb mode "complete") eqn:H2.
    { apply String.eqb_eq in H2. subst. exfalso. apply Hns. right. right. by left. }
    destruct (String.eqb mode "eos") eqn:H3; [|done].
    apply String.eqb_eq in H3. subst. exfalso. apply Hns. right. right. by right.
  - intros Hmode ->. exists ZeroDivisionError. unfold init.
    assert (build_blocks (ds_sizes ds) 0 break_mode = Raise ZeroDivisionError) as ->; [|done].
    by destruct Hmode as [-> | ->].
  - intros [-> | ->]; unfold init; simpl.
    + destruct (complete_blocks_returns (ds_sizes ds) block_size) as [bl ->].
      eexists. split; [reflexivity|]. done.
    + eexists. split; [reflexivity|]. done.
Qed.

Lemma init_errors_witness :
  init demo_stream 2 1 2 (Some "sentence"%string) false = Raise ValueError /\
  exists x, init demo_stream 0 1 2 None false = Raise x.
Proof.
  split.
  - apply (init_errors demo_stream 2 1 2 (Some "sentence"%string) false).
    intros [H|[H|[H|H]]]; discriminate H.
  - apply (init_errors demo_stream 0 1 2 None false).
    + left. reflexivity.
    + reflexivity.
Defined.

(** ** Prefetching nothing *)

Lemma slice_nil {A} (a b : Z) : Py.slice (@nil A) a b = [].
Proof. unfold Py.slice. by rewrite drop_nil, take_nil. Qed.

(** X17: [prefetch] of an empty list of ids returns, replaces the buffer by
    an empty one and leaves the index as it was; after it, [get] of every id
    that is a key of the index returns an empty target. *)
Theorem prefetch_nothing (junk : nat -> Z) (self : TokenBlockDataset) :
  exists self',
    prefetch junk [] self = (Ok tt, self') /\
    cache self' = Some [] /\
    cache_index self' = cache_index self /\
    forall id, is_Some (cache_index self !! id) ->
      exists x, getitem self' id = Ok x /\ target x = [].
Proof.
  exists (set_cache [] self). split; [reflexivity|]. split; [done|]. split; [done|].
  intros id [[s e] Hid].
  destruct (getitem_hit (set_cache [] self) id s e [] Hid eq_refl) as (x & Hx & Ht).
  exists x. split; [done|]. by rewrite Ht, slice_nil.
Qed.

Lemma prefetch_nothing_witness :
  exists self',
    prefetch zeros []
      {| dataset := demo_stream; pad := 1; eos := 2; include_targets := false;
         slice_indices := [(0, 2); (2, 4)]; sizes := [2; 2];
         cache := Some [12; 13]; cache_index := {[ 1 := (0, 2) ]} |}
    = (Ok tt, self') /\
    exists x, getitem self' 1 = Ok x /\ target x = [].
Proof.
  destruct (prefetch_nothing zeros
      {| dataset := demo_stream; pad := 1; eos := 2; include_targets := false;
         slice_indices := [(0, 2); (2, 4)]; sizes := [2; 2];
         cache := Some [12; 13]; cache_index := {[ 1 := (0, 2) ]} |})
    as (self' & Hrun & _ & _ & Hget).
  exists self'. split; [exact Hrun|]. apply (Hget 1).
  vm_compute. eexists. reflexivity.
Defined.
